(** * PackStream v1: the Packer and the Unpacker of the Bolt connection

    A shallow embedding of
    [packages/neo4j-driver-deno/lib/bolt-connection/packstream/packstream-v1.js].

    - Host values are a tagged union [value]; a host double is carried as its
      IEEE 754 binary64 image, a string as its UTF-8 bytes.
    - The Packer is a state monad over its two fields ([_ch], the bytes
      written so far, and [_byteArraysSupported]); a thrown exception keeps
      the bytes already written.
    - The Unpacker is a reader over the unread bytes of the buffer.
    - A decoded map is filled by property assignment; where the result of
      an assignment is decided by an object that the decoded data put in the
      prototype chain, the embedding stops with [HostDefined].
    - The value returned by [packable] is a closure, modelled as a monadic
      action to be run later. *)

From Stdlib Require Import ZArith List String Ascii Lia Bool.
From Stdlib Require Import DecimalString HexadecimalString.
Import ListNotations.
Open Scope Z_scope.

(** ** Marker bytes *)

Definition TINY_STRING : Z := 0x80.
Definition TINY_LIST : Z := 0x90.
Definition TINY_MAP : Z := 0xa0.
Definition TINY_STRUCT : Z := 0xb0.
Definition NULL : Z := 0xc0.
Definition FLOAT_64 : Z := 0xc1.
Definition FALSE : Z := 0xc2.
Definition TRUE : Z := 0xc3.
Definition INT_8 : Z := 0xc8.
Definition INT_16 : Z := 0xc9.
Definition INT_32 : Z := 0xca.
Definition INT_64 : Z := 0xcb.
Definition STRING_8 : Z := 0xd0.
Definition STRING_16 : Z := 0xd1.
Definition STRING_32 : Z := 0xd2.
Definition LIST_8 : Z := 0xd4.
Definition LIST_16 : Z := 0xd5.
Definition LIST_32 : Z := 0xd6.
Definition BYTES_8 : Z := 0xcc.
Definition BYTES_16 : Z := 0xcd.
Definition BYTES_32 : Z := 0xce.
Definition MAP_8 : Z := 0xd8.
Definition MAP_16 : Z := 0xd9.
Definition MAP_32 : Z := 0xda.
Definition STRUCT_8 : Z := 0xdc.
Definition STRUCT_16 : Z := 0xdd.

(** ** Host arithmetic *)

(** ToInt32: what [>> 0] and [| 0] do to an integral number. *)
Definition toInt32 (z : Z) : Z := (z + 2 ^ 31) mod 2 ^ 32 - 2 ^ 31.

(** [(size / d) >> 0]: the real quotient, truncated, as an int32. *)
Definition div_sar0 (size d : Z) : Z := toInt32 (Z.quot size d).

(** [a % b] of the host: the remainder has the sign of the dividend. *)
Definition js_mod (a b : Z) : Z := Z.rem a b.

(** [n.toString(16)] of a byte. *)
Definition toString16 (n : Z) : string :=
  HexadecimalString.NilZero.string_of_int (Z.to_hex_int n).

(** The decimal rendering of a size in a concatenation, ['...' + size].  The
    host prints every digit of an integral number of magnitude at most
    [2^53 - 1]; a larger number is printed with the shortest digits that
    read back as the same double, and from [1e21] in exponent form.  This is
    the rendering on the first range, the only one where it is used: an
    array length is below [2^32], and the statements about other sizes bound
    them by [2^53]. *)
Definition toString10 (n : Z) : string :=
  DecimalString.NilZero.string_of_int (Z.to_int n).

(** ** The I64 helper *)

(** Modelled from the spec: the [Integer] class of [core/integer.ts] is not
    among the sources.  Spec 6: it exposes [high: i32] and [low: i32], a
    total ordering against other I64s, conversion to big-integer and to a
    host double with saturation.  Spec 4.2: the value is
    [high<<32 | low] in two's complement. *)
Record Integer : Type := mkInteger { low : Z; high : Z }.

Definition int32_range (z : Z) : Prop := - 2 ^ 31 <= z < 2 ^ 31.

Definition Integer_wf (x : Integer) : Prop :=
  int32_range (low x) /\ int32_range (high x).

(** Modelled from the spec: the signed value of an I64, [high<<32 | low]
    with [low] read as unsigned (spec 4.2). *)
Definition toZ (x : Integer) : Z := high x * 2 ^ 32 + low x mod 2 ^ 32.

(** Modelled from the spec: [int(v)], the I64 of an integral host number or
    of a big-integer (spec 6), two's complement on 64 bits. *)
Definition int (v : Z) : Integer :=
  mkInteger (toInt32 v) (toInt32 (v / 2 ^ 32)).

(** Modelled from the spec: [x.greaterThanOrEqual(other)] and
    [x.lessThan(other)], the total order of I64s by value (spec 6). *)
Definition greaterThanOrEqual (x : Integer) (other : Z) : bool :=
  toZ (int other) <=? toZ x.

Definition lessThan (x : Integer) (other : Z) : bool :=
  toZ x <? toZ (int other).

(** Modelled from the spec: [x.toBigInt()], the big-integer of the same
    value (spec 4.3). *)
Definition toBigInt (x : Integer) : Z := toZ x.

(** ** Exceptions and outcomes *)

(** Modelled from the spec: [newError] of [core/error.ts] is not among the
    sources.  Spec 7: one error kind, ProtocolError, covers all codec
    failures, and every error carries a descriptive message.  The optional
    second argument of [newError] is kept as each call site writes it.
    [ReadOutOfRange] is the protocol error that the buffer raises on an
    out-of-range read (spec 6); its text is not in the sources.
    [Exception] is any other value thrown by a hook or an iterable, with its
    [message].  [TypeError] is the host's own error. *)
Inductive exn : Type :=
| ProtocolError (message : string) (code : option string)
| ReadOutOfRange
| Exception (message : string)
| TypeError (message : string).

Definition PROTOCOL_ERROR : string := "ProtocolError".

Definition newError (message : string) (code : option string) : exn :=
  ProtocolError message code.

Definition exn_message (e : exn) : string :=
  match e with
  | ProtocolError m _ => m
  | ReadOutOfRange => ""
  | Exception m => m
  | TypeError m => m
  end.

(** What the host throws when a template literal converts a Symbol to a
    string, with the message of the engine behind deno. *)
Definition symbol_to_string : exn :=
  TypeError "Cannot convert a Symbol value to a string".

(** [Return] and [Throw] are the two ways a call ends.  [NoFuel] and
    [HostDefined] are the two ways the embedding stops short of that:
    a bound on the nesting was too small (see [packable] and [unpack]), or
    the call goes on in a way that this file does not describe (see
    [obj_set] and [property_key]). *)
Inductive outcome (A : Type) : Type :=
| Return (a : A)
| Throw (e : exn)
| NoFuel
| HostDefined.
Arguments Return {A} a.
Arguments Throw {A} e.
Arguments NoFuel {A}.
Arguments HostDefined {A}.

(** ** Host values *)

#[local] Set Warnings "-register-all".
Inductive value : Type :=
| VUndefined
| VNull
| VBool (b : bool)
| VNumber (bits : Z)
| VString (s : string)
| VBigInt (z : Z)
| VInt (i : Integer)
| VBytes (a : list Z)
| VArray (l : list value)
| VIterable (repr : string) (failure : option exn) (items : list value)
| VStruct (signature : Z) (fields : list value)
| VObject (props : list (string * value))
| VOther (repr : string)
| VSymbol.

(** Reading the constructors:
    - [VNumber bits]: a host double, [bits] its binary64 image;
    - [VBytes a]: an [Int8Array], elements in [-128, 127];
    - [VIterable repr failure items]: an iterable that is not an array;
      [Array.from] throws [e] when [failure = Some e] and gives [items]
      otherwise; [repr] is its string conversion;
    - [VStruct signature fields]: a [Structure];
    - [VObject props]: any other object, [props] its own enumerable
      string-keyed properties in [Object.keys] order (see [keys_in_order]);
    - [VOther repr]: a function, [repr] its string conversion;
    - [VSymbol]: a Symbol, the one value that has no string conversion. *)

Definition is_undefined (x : value) : bool :=
  match x with VUndefined => true | _ => false end.

Definition is_null (x : value) : bool :=
  match x with VNull => true | _ => false end.

(** The values that are neither [null] nor an object. *)
Definition is_primitive (x : value) : bool :=
  match x with
  | VUndefined | VBool _ | VNumber _ | VString _ | VBigInt _ | VSymbol => true
  | _ => false
  end.

(** The hooks: [inl ex] when the hook throws [ex]. *)
Definition hook : Type := value -> exn + value.

(** [functional.identity] *)
Definition identity : hook := fun x => inr x.

(** ** The channel and the Packer state *)

Record Packer : Type := mkPacker {
  _ch : list Z;
  _byteArraysSupported : bool
}.

(** [new Packer(channel)] *)
Definition new_Packer (channel : list Z) : Packer := mkPacker channel true.

(** State passing with exceptions: a throw keeps the state reached. *)
Definition St (S A : Type) : Type := S -> outcome A * S.

Definition ret {S A : Type} (a : A) : St S A := fun s => (Return a, s).

Definition throw {S A : Type} (e : exn) : St S A := fun s => (Throw e, s).

Definition bind {S A B : Type} (m : St S A) (k : A -> St S B) : St S B :=
  fun s =>
    match m s with
    | (Return a, s') => k a s'
    | (Throw e, s') => (Throw e, s')
    | (NoFuel, s') => (NoFuel, s')
    | (HostDefined, s') => (HostDefined, s')
    end.

(** [try { m } catch (e) { handler(e) }] *)
Definition try_catch {S A : Type} (m : St S A) (handler : exn -> St S A)
  : St S A :=
  fun s =>
    match m s with
    | (Throw e, s') => handler e s'
    | r => r
    end.

Notation "x <- m ;; k" := (bind m (fun x => k))
  (at level 61, m at next level, right associativity).
Notation "m ;;; k" := (bind m (fun _ => k))
  (at level 61, right associativity).

Definition M (A : Type) : Type := St Packer A.

(** A closure returned by [packable]: it runs against the Packer later. *)
Definition closure : Type := M unit.

(** [for (let i = 0; i < xs.length; i++) body(xs[i])] *)
Fixpoint forEach {A : Type} (xs : list A) (body : A -> M unit) : M unit :=
  match xs with
  | [] => ret tt
  | x :: rest => body x ;;; forEach rest body
  end.

(** Modelled from the spec: the chunker behind [_ch] is not among the
    sources.  Spec 6: [writeUInt8] writes one unsigned byte, [writeInt8],
    [writeInt16], [writeInt32] write two's-complement big-endian integers of
    the stated width, [writeFloat64] writes the binary64 image big-endian,
    [writeBytes] writes a byte run. *)
Definition emit (bytes : list Z) : M unit :=
  fun p => (Return tt, mkPacker (_ch p ++ bytes) (_byteArraysSupported p)).

Definition byte_at (k : Z) (b : Z) : Z := (b / 2 ^ (8 * k)) mod 256.

Definition writeUInt8 (b : Z) : M unit := emit [b mod 256].
Definition writeInt8 (b : Z) : M unit := emit [b mod 256].
Definition writeInt16 (b : Z) : M unit := emit [byte_at 1 b; byte_at 0 b].
Definition writeInt32 (b : Z) : M unit :=
  emit [byte_at 3 b; byte_at 2 b; byte_at 1 b; byte_at 0 b].
Definition writeFloat64 (bits : Z) : M unit :=
  emit [byte_at 7 bits; byte_at 6 bits; byte_at 5 bits; byte_at 4 bits;
        byte_at 3 bits; byte_at 2 bits; byte_at 1 bits; byte_at 0 bits].
Definition writeBytes (bytes : list Z) : M unit := emit bytes.

(** Modelled from the spec: [utf8.encode] of the channel package is not among
    the sources.  A string is held as its UTF-8 bytes, one [ascii] per byte,
    so encoding lists them (spec 6: the codec round-trips valid text). *)
Definition utf8_encode (x : string) : list Z :=
  map (fun c => Z.of_N (N_of_ascii c)) (list_ascii_of_string x).

Definition len {A : Type} (l : list A) : Z := Z.of_nat (List.length l).

(** ** Packer: the fixed-shape encoders *)

Definition packInteger (x : Integer) : M unit :=
  let high := high x in
  let low := low x in
  if greaterThanOrEqual x (-0x10) && lessThan x 0x80 then
    writeInt8 low
  else if greaterThanOrEqual x (-0x80) && lessThan x (-0x10) then
    writeUInt8 INT_8 ;;; writeInt8 low
  else if greaterThanOrEqual x (-0x8000) && lessThan x 0x8000 then
    writeUInt8 INT_16 ;;; writeInt16 low
  else if greaterThanOrEqual x (-0x80000000) && lessThan x 0x80000000 then
    writeUInt8 INT_32 ;;; writeInt32 low
  else
    writeUInt8 INT_64 ;;; writeInt32 high ;;; writeInt32 low.

Definition packFloat (x : Z) : M unit :=
  writeUInt8 FLOAT_64 ;;; writeFloat64 x.

Definition packString (x : string) : M unit :=
  let bytes := utf8_encode x in
  let size := len bytes in
  if size <? 0x10 then
    writeUInt8 (Z.lor TINY_STRING size) ;;; writeBytes bytes
  else if size <? 0x100 then
    writeUInt8 STRING_8 ;;; writeUInt8 size ;;; writeBytes bytes
  else if size <? 0x10000 then
    writeUInt8 STRING_16 ;;;
    writeUInt8 (div_sar0 size 256) ;;;
    writeUInt8 (js_mod size 256) ;;;
    writeBytes bytes
  else if size <? 0x100000000 then
    writeUInt8 STRING_32 ;;;
    writeUInt8 (js_mod (div_sar0 size 16777216) 256) ;;;
    writeUInt8 (js_mod (div_sar0 size 65536) 256) ;;;
    writeUInt8 (js_mod (div_sar0 size 256) 256) ;;;
    writeUInt8 (js_mod size 256) ;;;
    writeBytes bytes
  else
    throw (newError ("UTF-8 strings of size " ++ toString10 size
                     ++ " are not supported") None).

Definition packListHeader (size : Z) : M unit :=
  if size <? 0x10 then
    writeUInt8 (Z.lor TINY_LIST size)
  else if size <? 0x100 then
    writeUInt8 LIST_8 ;;; writeUInt8 size
  else if size <? 0x10000 then
    writeUInt8 LIST_16 ;;;
    writeUInt8 (js_mod (div_sar0 size 256) 256) ;;;
    writeUInt8 (js_mod size 256)
  else if size <? 0x100000000 then
    writeUInt8 LIST_32 ;;;
    writeUInt8 (js_mod (div_sar0 size 16777216) 256) ;;;
    writeUInt8 (js_mod (div_sar0 size 65536) 256) ;;;
    writeUInt8 (js_mod (div_sar0 size 256) 256) ;;;
    writeUInt8 (js_mod size 256)
  else
    throw (newError ("Lists of size " ++ toString10 size
                     ++ " are not supported") None).

Definition packBytesHeader (size : Z) : M unit :=
  if size <? 0x100 then
    writeUInt8 BYTES_8 ;;; writeUInt8 size
  else if size <? 0x10000 then
    writeUInt8 BYTES_16 ;;;
    writeUInt8 (js_mod (div_sar0 size 256) 256) ;;;
    writeUInt8 (js_mod size 256)
  else if size <? 0x100000000 then
    writeUInt8 BYTES_32 ;;;
    writeUInt8 (js_mod (div_sar0 size 16777216) 256) ;;;
    writeUInt8 (js_mod (div_sar0 size 65536) 256) ;;;
    writeUInt8 (js_mod (div_sar0 size 256) 256) ;;;
    writeUInt8 (js_mod size 256)
  else
    throw (newError ("Byte arrays of size " ++ toString10 size
                     ++ " are not supported") None).

Definition packBytes (array : list Z) : M unit :=
  fun p =>
    if _byteArraysSupported p then
      (packBytesHeader (len array) ;;;
       forEach array (fun b => writeInt8 b)) p
    else
      throw (newError
        "Byte arrays are not supported by the database this driver is connected to"
        None) p.

Definition packMapHeader (size : Z) : M unit :=
  if size <? 0x10 then
    writeUInt8 (Z.lor TINY_MAP size)
  else if size <? 0x100 then
    writeUInt8 MAP_8 ;;; writeUInt8 size
  else if size <? 0x10000 then
    writeUInt8 MAP_16 ;;;
    writeUInt8 (div_sar0 size 256) ;;;
    writeUInt8 (js_mod size 256)
  else if size <? 0x100000000 then
    writeUInt8 MAP_32 ;;;
    writeUInt8 (js_mod (div_sar0 size 16777216) 256) ;;;
    writeUInt8 (js_mod (div_sar0 size 65536) 256) ;;;
    writeUInt8 (js_mod (div_sar0 size 256) 256) ;;;
    writeUInt8 (js_mod size 256)
  else
    throw (newError ("Maps of size " ++ toString10 size
                     ++ " are not supported") None).

Definition packStructHeader (size : Z) (signature : Z) : M unit :=
  if size <? 0x10 then
    writeUInt8 (Z.lor TINY_STRUCT size) ;;; writeUInt8 signature
  else if size <? 0x100 then
    writeUInt8 STRUCT_8 ;;; writeUInt8 size ;;; writeUInt8 signature
  else if size <? 0x10000 then
    writeUInt8 STRUCT_16 ;;;
    writeUInt8 (div_sar0 size 256) ;;;
    writeUInt8 (js_mod size 256)
  else
    throw (newError ("Structures of size " ++ toString10 size
                     ++ " are not supported") None).

Definition disableByteArrays : M unit :=
  fun p => (Return tt, mkPacker (_ch p) false).

Definition _nonPackableValue (message : string) : closure :=
  throw (newError message (Some PROTOCOL_ERROR)).

(** [packStruct]: the header, then every field closure in order. *)
Definition packStruct (signature : Z) (packableFields : list closure) : M unit :=
  packStructHeader (len packableFields) signature ;;;
  forEach packableFields (fun c => c).

(** ** Packer: [packable] *)

(** [Array.from(iterable)] *)
Definition Array_from (failure : option exn) (items : list value)
  : M (list value) :=
  match failure with
  | Some e => throw e
  | None => ret items
  end.

(** Building one closure per field, in order, as the loop over [x.fields]
    does. *)
Fixpoint mapM {A B : Type} (f : A -> M B) (xs : list A) : M (list B) :=
  match xs with
  | [] => ret []
  | x :: rest => y <- f x ;; ys <- mapM f rest ;; ret (y :: ys)
  end.

(** The number of keys whose value is not [undefined]. *)
Fixpoint count_defined (props : list (string * value)) : Z :=
  match props with
  | [] => 0
  | (_, v) :: rest =>
      if is_undefined v then count_defined rest else 1 + count_defined rest
  end.

(** [packable] follows the value that the hook returns, so it is defined by
    recursion on [fuel], the number of nested [packable] calls allowed. *)
Fixpoint packable (fuel : nat) (x : value) (dehydrateStruct : hook)
  {struct fuel} : M closure :=
  match fuel with
  | O => fun p => (NoFuel, p)
  | S fuel =>
    match dehydrateStruct x with
    | inl ex => ret (throw ex)
    | inr x =>
      match x with
      | VNull => ret (writeUInt8 NULL)
      | VBool true => ret (writeUInt8 TRUE)
      | VBool false => ret (writeUInt8 FALSE)
      | VNumber bits => ret (packFloat bits)
      | VString s => ret (packString s)
      | VBigInt z => ret (packInteger (int z))
      | VInt i => ret (packInteger i)
      | VBytes a => ret (packBytes a)
      | VArray l =>
          ret (packListHeader (len l) ;;;
               forEach l (fun xi =>
                 c <- packable fuel (if is_undefined xi then VNull else xi)
                        dehydrateStruct ;;
                 c))
      | VIterable repr failure items =>
          (* packableIterable *)
          try_catch
            (array <- Array_from failure items ;;
             packable fuel (VArray array) dehydrateStruct)
            (fun e =>
               throw (newError ("Cannot pack given iterable, "
                                ++ exn_message e ++ ": " ++ repr) None))
      | VStruct signature fields =>
          packableFields <-
            mapM (fun f => packable fuel f dehydrateStruct) fields ;;
          ret (packStruct signature packableFields)
      | VObject props =>
          ret (let count := count_defined props in
               packMapHeader count ;;;
               forEach props (fun kv =>
                 if is_undefined (snd kv) then ret tt
                 else
                   packString (fst kv) ;;;
                   c <- packable fuel (snd kv) dehydrateStruct ;;
                   c))
      | VUndefined =>
          ret (_nonPackableValue "Unable to pack the given value: undefined")
      | VOther repr =>
          ret (_nonPackableValue ("Unable to pack the given value: " ++ repr))
      | VSymbol =>
          (* the template literal throws before [_nonPackableValue] is called *)
          throw symbol_to_string
      end
    end
  end.

(** [packer.packable(x, dehydrateStruct)()] *)
Definition pack (fuel : nat) (x : value) (dehydrateStruct : hook) : M unit :=
  c <- packable fuel x dehydrateStruct ;; c.

(** ** The buffer *)

Definition R (A : Type) : Type := St (list Z) A.

(** Modelled from the spec: the buffer class is not among the sources.
    Spec 6: a cursor-style source whose reads advance the cursor and raise a
    protocol error when out of range; integers are big-endian.  The state is
    the unread part; every element is read as a byte. *)
Definition readUInt8 : R Z :=
  fun buf =>
    match buf with
    | [] => (Throw ReadOutOfRange, buf)
    | b :: rest => (Return (b mod 256), rest)
    end.

Definition signed (bits : Z) (u : Z) : Z :=
  if u <? 2 ^ (bits - 1) then u else u - 2 ^ bits.

Definition readUInt16 : R Z :=
  hi <- readUInt8 ;; lo <- readUInt8 ;; ret (hi * 256 + lo).

Definition readUInt32 : R Z :=
  hi <- readUInt16 ;; lo <- readUInt16 ;; ret (hi * 65536 + lo).

Definition readInt8 : R Z := u <- readUInt8 ;; ret (signed 8 u).
Definition readInt16 : R Z := u <- readUInt16 ;; ret (signed 16 u).
Definition readInt32 : R Z := u <- readUInt32 ;; ret (signed 32 u).

Definition readFloat64 : R Z :=
  hi <- readUInt32 ;; lo <- readUInt32 ;; ret (hi * 2 ^ 32 + lo).

(** A step that the host decides: [None] stops the embedding. *)
Definition host {A : Type} (result : option A) : R A :=
  match result with
  | Some a => ret a
  | None => fun buf => (HostDefined, buf)
  end.

(** [n] times [body], collecting the results in order. *)
Fixpoint repeatM {A : Type} (n : nat) (body : R A) : R (list A) :=
  match n with
  | O => ret []
  | S n => x <- body ;; xs <- repeatM n body ;; ret (x :: xs)
  end.

(** Modelled from the spec: [utf8.decode(buffer, n)] reads [n] bytes and
    gives the string they encode (spec 6). *)
Definition utf8_decode (length : Z) : R string :=
  bytes <- repeatM (Z.to_nat length) readUInt8 ;;
  ret (string_of_list_ascii (map (fun b => ascii_of_N (Z.to_N b)) bytes)).

(** ** Integer policy conversions *)

Definition MAX_SAFE_VALUE : Z := 2 ^ 53 - 1.
Definition MIN_SAFE_VALUE : Z := - (2 ^ 53 - 1).

Definition POSITIVE_INFINITY : Z := 0x7ff0000000000000.
Definition NEGATIVE_INFINITY : Z := 0xfff0000000000000.

(** Modelled from the spec: [x.toNumber()] on the safe range.  The binary64
    image of an integer of magnitude below [2^53]: sign, biased exponent,
    and the fraction below the leading bit. *)
Definition toNumber (n : Z) : Z :=
  if n =? 0 then 0
  else
    let a := Z.abs n in
    let e := Z.log2 a in
    (if n <? 0 then 2 ^ 63 else 0) + (e + 1023) * 2 ^ 52
    + (a - 2 ^ e) * 2 ^ (52 - e).

(** Modelled from the spec: [toNumberOrInfinity] of the I64 helper (spec 4.3:
    convert to host number; values outside the safely representable range
    saturate to plus or minus infinity). *)
Definition toNumberOrInfinity (x : Integer) : Z :=
  if toZ x <? MIN_SAFE_VALUE then NEGATIVE_INFINITY
  else if MAX_SAFE_VALUE <? toZ x then POSITIVE_INFINITY
  else toNumber (toZ x).

(** ** Property assignment *)

(** [_unpackMapWithSize] fills an object literal by [value[key] = ...].
    What that statement does is the host's: the definitions below follow the
    language specification (OrdinarySet, OrdinaryOwnPropertyKeys and the
    [__proto__] accessor of [Object.prototype]). *)

(** The value of a string of decimal digits. *)
Fixpoint digits_value (s : string) (acc : Z) : option Z :=
  match s with
  | EmptyString => Some acc
  | String c rest =>
      let d := Z.of_N (N_of_ascii c) - 48 in
      if (0 <=? d) && (d <=? 9) then digits_value rest (10 * acc + d)
      else None
  end.

(** An array index: a key that is the decimal form, with no leading zero, of
    an integer from [0] to [2^32 - 2]. *)
Definition array_index (key : string) : option Z :=
  match key with
  | EmptyString => None
  | String c rest =>
      if Ascii.eqb c "0" && negb (String.eqb rest EmptyString) then None
      else
        match digits_value key 0 with
        | Some n => if n <? 2 ^ 32 - 1 then Some n else None
        | None => None
        end
  end.

(** The object under construction: its own properties as [Object.keys]
    lists them, and whether its prototype, [Object.prototype] at first, has
    been set to [null]. *)
Record object : Type := mkObject {
  own : list (string * value);
  null_prototype : bool
}.

(** [{}] *)
Definition new_object : object := mkObject [] false.

Definition has_own (props : list (string * value)) (key : string) : bool :=
  existsb (fun kv => String.eqb (fst kv) key) props.

(** An own property takes the new value and keeps its place. *)
Fixpoint replace_own (props : list (string * value)) (key : string)
  (v : value) : list (string * value) :=
  match props with
  | [] => []
  | (k, w) :: rest =>
      if String.eqb k key then (k, v) :: rest
      else (k, w) :: replace_own rest key v
  end.

(** A new array index goes before the first key that is a greater index or
    no index at all. *)
Fixpoint insert_index (i : Z) (key : string) (v : value)
  (props : list (string * value)) : list (string * value) :=
  match props with
  | [] => [(key, v)]
  | (k, w) :: rest =>
      match array_index k with
      | Some j =>
          if j <? i then (k, w) :: insert_index i key v rest
          else (key, v) :: (k, w) :: rest
      | None => (key, v) :: (k, w) :: rest
      end
  end.

(** A new property: the own keys are listed with the array indices first,
    in ascending order, then the other keys in the order of their
    creation. *)
Definition add_own (props : list (string * value)) (key : string) (v : value)
  : list (string * value) :=
  match array_index key with
  | Some i => insert_index i key v props
  | None => props ++ [(key, v)]
  end.

(** [value[key] = v] on an object made by [{}] and changed by such
    assignments only.
    - An own property is updated.
    - Otherwise the key [__proto__] is found on [Object.prototype] as an
      accessor, and its setter runs: it makes no own property; it sets the
      prototype when [v] is [null] or an object and does nothing when [v] is
      a primitive.  Once the prototype is [null] the accessor is out of
      reach and [__proto__] is a key like any other.  When [v] is an object
      it becomes the prototype, and what the later assignments and the
      Packer find through it is not described here: the answer is [None].
    - Any other key, inherited from [Object.prototype] or not, becomes a new
      own property. *)
Definition obj_set (val : object) (key : string) (v : value)
  : option object :=
  if has_own (own val) key then
    Some (mkObject (replace_own (own val) key v) (null_prototype val))
  else if String.eqb key "__proto__" && negb (null_prototype val) then
    if is_null v then Some (mkObject (own val) true)
    else if is_primitive v then Some val
    else None
  else Some (mkObject (add_own (own val) key v) (null_prototype val)).

(** ** Unpacker *)

Record Unpacker : Type := mkUnpacker {
  _disableLosslessIntegers : bool;
  _useBigInt : bool
}.

(** [new Unpacker()] with both parameters at their defaults. *)
Definition new_Unpacker : Unpacker := mkUnpacker false false.

Section Unpack.

(** The host's conversion of a decoded map key that is not a string to a
    property name (spec 4.3 leaves such maps implementation-defined). *)
Variable ToString : value -> string.

Variable this : Unpacker.
Variable hydrateStructure : hook.

(** The property name of a decoded key.  A primitive, an [Integer] and an
    [Int8Array] always have a string conversion.  The conversion of any
    other object runs methods found through its prototype and may throw,
    and a Symbol is a key that [Object.keys] does not list: for those the
    answer is [None]. *)
Definition property_key (key : value) : option string :=
  match key with
  | VString s => Some s
  | VUndefined | VNull | VBool _ | VNumber _ | VBigInt _ | VInt _
  | VBytes _ => Some (ToString key)
  | _ => None
  end.

Definition _unpackBoolean (marker : Z) : value :=
  if marker =? TRUE then VBool true
  else if marker =? FALSE then VBool false
  else VNull.

Definition _unpackInteger (marker : Z) : R value :=
  if (0 <=? marker) && (marker <? 128) then
    ret (VInt (int marker))
  else if (240 <=? marker) && (marker <? 256) then
    ret (VInt (int (marker - 256)))
  else if marker =? INT_8 then
    b <- readInt8 ;; ret (VInt (int b))
  else if marker =? INT_16 then
    b <- readInt16 ;; ret (VInt (int b))
  else if marker =? INT_32 then
    b <- readInt32 ;; ret (VInt (int b))
  else if marker =? INT_64 then
    high <- readInt32 ;;
    low <- readInt32 ;;
    ret (VInt (mkInteger low high))
  else
    ret VNull.

Definition _unpackNumberOrInteger (marker : Z) : R value :=
  if marker =? FLOAT_64 then
    x <- readFloat64 ;; ret (VNumber x)
  else
    _unpackInteger marker.

Definition _unpackString (marker markerHigh markerLow : Z) : R value :=
  if markerHigh =? TINY_STRING then
    s <- utf8_decode markerLow ;; ret (VString s)
  else if marker =? STRING_8 then
    n <- readUInt8 ;; s <- utf8_decode n ;; ret (VString s)
  else if marker =? STRING_16 then
    n <- readUInt16 ;; s <- utf8_decode n ;; ret (VString s)
  else if marker =? STRING_32 then
    n <- readUInt32 ;; s <- utf8_decode n ;; ret (VString s)
  else
    ret VNull.

(** The recursive helpers take [unpack], the method they call back. *)
Section Helpers.

Variable unpack : R value.

Definition _unpackListWithSize (size : Z) : R value :=
  val <- repeatM (Z.to_nat size) unpack ;;
  ret (VArray val).

Definition _unpackList (marker markerHigh markerLow : Z) : R value :=
  if markerHigh =? TINY_LIST then
    _unpackListWithSize markerLow
  else if marker =? LIST_8 then
    n <- readUInt8 ;; _unpackListWithSize n
  else if marker =? LIST_16 then
    n <- readUInt16 ;; _unpackListWithSize n
  else if marker =? LIST_32 then
    n <- readUInt32 ;; _unpackListWithSize n
  else
    ret VNull.

Definition _unpackByteArrayWithSize (size : Z) : R value :=
  val <- repeatM (Z.to_nat size) readInt8 ;;
  ret (VBytes val).

Definition _unpackByteArray (marker : Z) : R value :=
  if marker =? BYTES_8 then
    n <- readUInt8 ;; _unpackByteArrayWithSize n
  else if marker =? BYTES_16 then
    n <- readUInt16 ;; _unpackByteArrayWithSize n
  else if marker =? BYTES_32 then
    n <- readUInt32 ;; _unpackByteArrayWithSize n
  else
    ret VNull.

(** The loop of [_unpackMapWithSize]: [n] times, a key, a value, and
    [value[key] = ...]. *)
Fixpoint _unpackMapLoop (n : nat) (val : object) : R object :=
  match n with
  | O => ret val
  | S n =>
      key <- unpack ;;
      v <- unpack ;;
      name <- host (property_key key) ;;
      val <- host (obj_set val name v) ;;
      _unpackMapLoop n val
  end.

Definition _unpackMapWithSize (size : Z) : R value :=
  val <- _unpackMapLoop (Z.to_nat size) new_object ;;
  ret (VObject (own val)).

Definition _unpackMap (marker markerHigh markerLow : Z) : R value :=
  if markerHigh =? TINY_MAP then
    _unpackMapWithSize markerLow
  else if marker =? MAP_8 then
    n <- readUInt8 ;; _unpackMapWithSize n
  else if marker =? MAP_16 then
    n <- readUInt16 ;; _unpackMapWithSize n
  else if marker =? MAP_32 then
    n <- readUInt32 ;; _unpackMapWithSize n
  else
    ret VNull.

Definition _unpackStructWithSize (structSize : Z) : R value :=
  signature <- readUInt8 ;;
  fields <- repeatM (Z.to_nat structSize) unpack ;;
  match hydrateStructure (VStruct signature fields) with
  | inl ex => throw ex
  | inr v => ret v
  end.

Definition _unpackStruct (marker markerHigh markerLow : Z) : R value :=
  if markerHigh =? TINY_STRUCT then
    _unpackStructWithSize markerLow
  else if marker =? STRUCT_8 then
    n <- readUInt8 ;; _unpackStructWithSize n
  else if marker =? STRUCT_16 then
    n <- readUInt16 ;; _unpackStructWithSize n
  else
    ret VNull.

End Helpers.

(** [unpack]: [fuel] bounds the nesting of the recursive calls; each call
    reads its marker first, so the length of the buffer is always enough
    (see [Unpacker_unpack]). *)
Fixpoint unpack (fuel : nat) {struct fuel} : R value :=
  match fuel with
  | O => fun buf => (NoFuel, buf)
  | S fuel =>
    marker <- readUInt8 ;;
    let markerHigh := Z.land marker 0xf0 in
    let markerLow := Z.land marker 0x0f in
    if marker =? NULL then ret VNull
    else
    let boolean := _unpackBoolean marker in
    if negb (is_null boolean) then ret boolean
    else
    numberOrInteger <- _unpackNumberOrInteger marker ;;
    if negb (is_null numberOrInteger) then
      match numberOrInteger with
      | VInt i =>
          if _useBigInt this then ret (VBigInt (toBigInt i))
          else if _disableLosslessIntegers this then
            ret (VNumber (toNumberOrInfinity i))
          else ret numberOrInteger
      | _ => ret numberOrInteger
      end
    else
    string <- _unpackString marker markerHigh markerLow ;;
    if negb (is_null string) then ret string
    else
    list <- _unpackList (unpack fuel) marker markerHigh markerLow ;;
    if negb (is_null list) then ret list
    else
    byteArray <- _unpackByteArray marker ;;
    if negb (is_null byteArray) then ret byteArray
    else
    map <- _unpackMap (unpack fuel) marker markerHigh markerLow ;;
    if negb (is_null map) then ret map
    else
    struct <- _unpackStruct (unpack fuel) marker markerHigh markerLow ;;
    if negb (is_null struct) then ret struct
    else
    throw (newError ("Unknown packed value with marker "
                     ++ toString16 marker) None)
  end.

(** [unpacker.unpack(buffer, hydrateStructure)] *)
Definition Unpacker_unpack (buffer : list Z) : outcome value * list Z :=
  unpack (S (List.length buffer)) buffer.

(** [unpackInteger]: [result == null] holds for [null] and [undefined]. *)
Definition unpackInteger : R value :=
  marker <- readUInt8 ;;
  result <- _unpackInteger marker ;;
  if is_null result || is_undefined result then
    throw (newError ("Unable to unpack integer value with marker "
                     ++ toString16 marker) None)
  else ret result.

End Unpack.

(** ** Vocabulary of the statements *)

(** The Packer after [bytes] more were written. *)
Definition wrote (p : Packer) (bytes : list Z) : Packer :=
  mkPacker (_ch p ++ bytes) (_byteArraysSupported p).

(** An action that only writes: it returns, and appends [bytes]. *)
Definition writes {A : Type} (m : M A) (a : A) (bytes : list Z) : Prop :=
  forall p, m p = (Return a, wrote p bytes).

(** The Packer still takes byte arrays. *)
Definition supports_bytes (p : Packer) : Prop :=
  _byteArraysSupported p = true.

(** Big-endian bytes of a 32-bit word. *)
Definition be32 (w : Z) : list Z :=
  [byte_at 3 w; byte_at 2 w; byte_at 1 w; byte_at 0 w].

(** What an action writes to a fresh channel. *)
Definition bytes_of {A : Type} (m : M A) : list Z :=
  _ch (snd (m (new_Packer []))).



(** The message of the last statement of [unpack]. *)
Definition unknown_marker (marker : Z) : exn :=
  newError ("Unknown packed value with marker " ++ toString16 marker) None.


(** Which helper of [unpack] answers a marker, in the order it tries them. *)
Inductive kind : Type :=
| KNull | KBoolean | KNumber | KString | KList | KBytes | KMap | KStruct
| KUnknown.

Definition kind_of (m : Z) : kind :=
  if m =? NULL then KNull
  else if (m =? TRUE) || (m =? FALSE) then KBoolean
  else if (m =? FLOAT_64) || ((0 <=? m) && (m <? 128))
          || ((240 <=? m) && (m <? 256))
          || (m =? INT_8) || (m =? INT_16) || (m =? INT_32) || (m =? INT_64)
       then KNumber
  else if (Z.land m 0xf0 =? TINY_STRING) || (m =? STRING_8)
          || (m =? STRING_16) || (m =? STRING_32) then KString
  else if (Z.land m 0xf0 =? TINY_LIST) || (m =? LIST_8)
          || (m =? LIST_16) || (m =? LIST_32) then KList
  else if (m =? BYTES_8) || (m =? BYTES_16) || (m =? BYTES_32) then KBytes
  else if (Z.land m 0xf0 =? TINY_MAP) || (m =? MAP_8)
          || (m =? MAP_16) || (m =? MAP_32) then KMap
  else if (Z.land m 0xf0 =? TINY_STRUCT) || (m =? STRUCT_8)
          || (m =? STRUCT_16) then KStruct
  else KUnknown.

(** The integer policy of [unpack]. *)
Definition integer_policy (this : Unpacker) (i : Integer) : value :=
  if _useBigInt this then VBigInt (toBigInt i)
  else if _disableLosslessIntegers this then VNumber (toNumberOrInfinity i)
  else VInt i.

Definition apply_policy (this : Unpacker) (n : value) : value :=
  match n with
  | VInt i => integer_policy this i
  | other => other
  end.

(** What [unpack] does once it has read the marker [m], by kind. *)
Definition answer (ToString : value -> string) (this : Unpacker)
  (hydrateStructure : hook) (fuel : nat) (m : Z) : R value :=
  let mh := Z.land m 0xf0 in
  let ml := Z.land m 0x0f in
  let self := unpack ToString this hydrateStructure fuel in
  match kind_of m with
  | KNull => ret VNull
  | KBoolean => ret (_unpackBoolean m)
  | KNumber => n <- _unpackNumberOrInteger m ;; ret (apply_policy this n)
  | KString => _unpackString m mh ml
  | KList => _unpackList self m mh ml
  | KBytes => _unpackByteArray m
  | KMap => _unpackMap ToString self m mh ml
  | KStruct =>
      s <- _unpackStruct hydrateStructure self m mh ml ;;
      if is_null s then throw (unknown_marker m) else ret s
  | KUnknown => throw (unknown_marker m)
  end.

(** A key conversion for decoding where every key is a string. *)
Definition ToString_unused : value -> string := fun _ => EmptyString.

(** The size header of strings, lists and maps. *)
Definition size_header (tiny m8 m16 m32 : Z) (n : Z) : list Z :=
  if n <? 0x10 then [Z.lor tiny n]
  else if n <? 0x100 then [m8; n]
  else if n <? 0x10000 then [m16; n / 256; n mod 256]
  else m32 :: be32 n.

(** The size header of byte arrays. *)
Definition bytes_header (n : Z) : list Z :=
  if n <? 0x100 then [BYTES_8; n]
  else if n <? 0x10000 then [BYTES_16; n / 256; n mod 256]
  else BYTES_32 :: be32 n.

(** Nesting depth: the number of recursive calls below the outermost. *)
Fixpoint depth (x : value) : nat :=
  match x with
  | VArray l => S (list_max (map depth l))
  | VIterable _ _ items => S (S (list_max (map depth items)))
  | VStruct _ fields => S (list_max (map depth fields))
  | VObject props => S (list_max (map (fun kv => depth (snd kv)) props))
  | _ => O
  end.

(** [k] is listed before [k'] among the own keys of an object whatever the
    order of their creation (an array index before a greater one and before
    any other key), or may be (two different keys that are no array
    indices). *)
Definition precedes (k k' : string) : bool :=
  match array_index k, array_index k' with
  | Some i, Some j => i <? j
  | Some _, None => true
  | None, Some _ => false
  | None, None => negb (String.eqb k k')
  end.

(** The keys of a host object as [Object.keys] gives them: distinct, the
    array indices first and ascending. *)
Fixpoint keys_in_order (keys : list string) : bool :=
  match keys with
  | [] => true
  | k :: rest => forallb (precedes k) rest && keys_in_order rest
  end.

(** The keys of a map that the codec carries: those of a host object, none
    of them [__proto__]. *)
Definition map_keys (keys : list string) : bool :=
  keys_in_order keys && negb (existsb (String.eqb "__proto__") keys).

Definition uint32b (n : Z) : bool := (0 <=? n) && (n <? 2 ^ 32).
Definition int32b (n : Z) : bool := (- 2 ^ 31 <=? n) && (n <? 2 ^ 31).
Definition int8b (n : Z) : bool := (-128 <=? n) && (n <? 128).

(** The values the codec carries.  With [undef = true] a list element or a
    map value may also be [undefined]; with [undef = false] this is the
    recognized domain of spec 3: Null, Boolean, Float, Integer, String,
    Bytes, List, Map, Structure, with sizes below [2^32].  A Structure has a
    [u8] signature and fewer than [fields_bound] fields; a Map has the keys
    of a host object and no key [__proto__]. *)
Fixpoint carried (fields_bound : Z) (undef : bool) (x : value) : bool :=
  match x with
  | VNull => true
  | VBool _ => true
  | VNumber bits => (0 <=? bits) && (bits <? 2 ^ 64)
  | VString s => uint32b (len (utf8_encode s))
  | VInt i => int32b (low i) && int32b (high i)
  | VBytes a => uint32b (len a) && forallb int8b a
  | VArray l =>
      uint32b (len l)
      && forallb (fun xi => (undef && is_undefined xi)
                            || carried fields_bound undef xi) l
  | VStruct signature fields =>
      (0 <=? signature) && (signature <? 256)
      && (len fields <? fields_bound)
      && forallb (carried fields_bound undef) fields
  | VObject props =>
      map_keys (map fst props)
      && uint32b (len props)
      && forallb (fun kv => uint32b (len (utf8_encode (fst kv)))
                            && ((undef && is_undefined (snd kv))
                                || carried fields_bound undef (snd kv)))
           props
  | _ => false
  end.

(** The recognized domain as the spec bounds it (spec 3, invariant 5, and
    spec 6: a Structure has at most 65535 fields). *)
Definition recognized_domain : value -> bool := carried 65536 false.

(** What comes back: [undefined] list elements as [null], [undefined] map
    entries dropped. *)
Fixpoint normalize (x : value) : value :=
  match x with
  | VArray l =>
      VArray (map (fun xi => if is_undefined xi then VNull else normalize xi)
                l)
  | VStruct signature fields => VStruct signature (map normalize fields)
  | VObject props =>
      VObject (flat_map (fun kv => if is_undefined (snd kv) then []
                                   else [(fst kv, normalize (snd kv))])
                 props)
  | other => other
  end.

(** The bytes of a carried value: each header and each scalar as the Packer
    writes it, the children in order. *)
Fixpoint encode (x : value) : list Z :=
  match x with
  | VNull => bytes_of (writeUInt8 NULL)
  | VBool true => bytes_of (writeUInt8 TRUE)
  | VBool false => bytes_of (writeUInt8 FALSE)
  | VNumber bits => bytes_of (packFloat bits)
  | VString s => bytes_of (packString s)
  | VInt i => bytes_of (packInteger i)
  | VBytes a => bytes_of (packBytes a)
  | VArray l =>
      bytes_of (packListHeader (len l))
      ++ flat_map (fun xi => if is_undefined xi then bytes_of (writeUInt8 NULL)
                             else encode xi) l
  | VStruct signature fields =>
      bytes_of (packStructHeader (len fields) signature)
      ++ flat_map encode fields
  | VObject props =>
      bytes_of (packMapHeader (count_defined props))
      ++ flat_map (fun kv => if is_undefined (snd kv) then []
                             else bytes_of (packString (fst kv))
                                  ++ encode (snd kv)) props
  | _ => []
  end.

(** A Structure with 256 fields, the least count the STRUCT_16 form takes. *)
Definition struct_256 : value := VStruct 0x4e (repeat VNull 256).

(** A hook that answers [null] for every Structure. *)
Definition hydrate_to_null : hook := fun _ => inr VNull.

(** The header that introduces a Structure of [n] fields on the wire, as
    [_unpackStruct] reads it. *)
Definition struct_header (n : Z) : list Z :=
  if n <? 0x10 then [Z.lor TINY_STRUCT n]
  else if n <? 0x100 then [STRUCT_8; n]
  else [STRUCT_16; n / 256; n mod 256].




(** Induction on values through their lists of children. *)
Section value_induction.

Variable P : value -> Prop.

Hypothesis P_leaf :
  forall x,
    match x with
    | VArray _ | VIterable _ _ _ | VStruct _ _ | VObject _ => False
    | _ => True
    end -> P x.
Hypothesis P_array : forall l, Forall P l -> P (VArray l).
Hypothesis P_iterable :
  forall repr failure items, Forall P items ->
  P (VIterable repr failure items).
Hypothesis P_struct :
  forall signature fields, Forall P fields -> P (VStruct signature fields).
Hypothesis P_object :
  forall props, Forall (fun kv => P (snd kv)) props -> P (VObject props).

Fixpoint value_nested_ind (x : value) : P x :=
  let children :=
    fix children (l : list value) : Forall P l :=
      match l with
      | [] => Forall_nil P
      | y :: l' => Forall_cons y (value_nested_ind y) (children l')
      end in
  match x with
  | VArray l => P_array l (children l)
  | VIterable repr failure items =>
      P_iterable repr failure items (children items)
  | VStruct signature fields => P_struct signature fields (children fields)
  | VObject props =>
      P_object props
        ((fix entries (l : list (string * value))
            : Forall (fun kv => P (snd kv)) l :=
            match l with
            | [] => Forall_nil _
            | kv :: l' =>
                Forall_cons (P := fun kv => P (snd kv)) kv
                  (value_nested_ind (snd kv)) (entries l')
            end) props)
  | VUndefined => P_leaf VUndefined I
  | VNull => P_leaf VNull I
  | VBool b => P_leaf (VBool b) I
  | VNumber bits => P_leaf (VNumber bits) I
  | VString s => P_leaf (VString s) I
  | VBigInt z => P_leaf (VBigInt z) I
  | VInt i => P_leaf (VInt i) I
  | VBytes a => P_leaf (VBytes a) I
  | VOther repr => P_leaf (VOther repr) I
  | VSymbol => P_leaf VSymbol I
  end.

End value_induction.

(** An action of the Packer that only adds bytes after those already
    written, and leaves [_byteArraysSupported] alone, whether it returns or
    throws. *)
Definition appends {A : Type} (m : M A) : Prop :=
  forall p, exists bytes, snd (m p) = wrote p bytes.

(** A reader that, on a buffer of at most [n] bytes, does not run out of
    fuel and leaves no more bytes than it found. *)
Definition reads_within {A : Type} (n : nat) (m : R A) : Prop :=
  forall buf, (List.length buf <= n)%nat ->
    fst (m buf) <> NoFuel
    /\ forall a b', m buf = (Return a, b') ->
                    (List.length b' <= List.length buf)%nat.

(** A hydration hook that replaces a one-field Structure of signature 4E by
    its field and leaves every other Structure as it is. *)
Definition unwrap_single : hook :=
  fun x =>
    match x with
    | VStruct 0x4e [field] => inr field
    | other => inr other
    end.

(** An iterable whose conversion to an array throws. *)
Definition failing_iterable : value :=
  VIterable "[object Generator]" (Some (Exception "boom")) [].

(** * Properties *)

(** ** Host arithmetic *)

Lemma toInt32_small (z : Z) : - 2 ^ 31 <= z < 2 ^ 31 -> toInt32 z = z.
Proof.
  intros H. unfold toInt32.
  rewrite Z.mod_small by lia. lia.
Qed.

Lemma div_sar0_nonneg (size d : Z) :
  0 <= size < 2 ^ 32 -> 2 <= d -> div_sar0 size d = size / d.
Proof.
  intros Hs Hd. unfold div_sar0.
  rewrite Z.quot_div_nonneg by lia.
  apply toInt32_small.
  assert (0 <= size / d) by (apply Z.div_pos; lia).
  assert (size / d < 2 ^ 31).
  { apply Z.div_lt_upper_bound; lia. }
  lia.
Qed.

Lemma js_mod_nonneg (a b : Z) : 0 <= a -> 0 < b -> js_mod a b = a mod b.
Proof. intros Ha Hb. unfold js_mod. apply Z.rem_mod_nonneg; lia. Qed.

(** Enumeration of a short range of integers. *)
Lemma range_cases (P : Z -> Prop) (lo : Z) (n : nat) :
  (forall k : nat, (k < n)%nat -> P (lo + Z.of_nat k)) ->
  forall m, lo <= m < lo + Z.of_nat n -> P m.
Proof.
  intros H m Hm.
  replace m with (lo + Z.of_nat (Z.to_nat (m - lo))) by lia.
  apply H. lia.
Qed.

Ltac enum_nat k Hk :=
  lazymatch type of Hk with
  | (_ < O)%nat => exfalso; inversion Hk
  | _ =>
      destruct k as [ | k ];
      [ clear Hk
      | apply (proj2 (Nat.succ_lt_mono _ _)) in Hk; enum_nat k Hk ]
  end.

Ltac enumerate m lo n :=
  pattern m; apply (range_cases _ lo n); [ | simpl Z.of_nat; lia ];
  let k := fresh "k" in
  let Hk := fresh "Hk" in
  intros k Hk; enum_nat k Hk.

Lemma lor_tiny (tiny n : Z) :
  In tiny [TINY_STRING; TINY_LIST; TINY_MAP; TINY_STRUCT] ->
  0 <= n < 16 ->
  Z.lor tiny n = tiny + n /\ (tiny + n) mod 256 = tiny + n.
Proof.
  intros Ht Hn.
  assert (Hl : Z.lor tiny n = tiny + n).
  { simpl in Ht.
    enumerate n 0 16%nat;
      (destruct Ht as [<- | [<- | [<- | [<- | []]]]]; reflexivity). }
  split; [ exact Hl | ].
  apply Z.mod_small.
  simpl in Ht.
  destruct Ht as [<- | [<- | [<- | [<- | []]]]];
    unfold TINY_STRING, TINY_LIST, TINY_MAP, TINY_STRUCT; lia.
Qed.

(** ** Running the Packer *)

Lemma wrote_wrote (p : Packer) (a b : list Z) :
  wrote (wrote p a) b = wrote p (a ++ b).
Proof. unfold wrote. simpl. now rewrite app_assoc. Qed.

Lemma wrote_nil (p : Packer) : wrote p [] = p.
Proof. destruct p. unfold wrote. simpl. now rewrite app_nil_r. Qed.

Lemma emit_run (bytes : list Z) (p : Packer) :
  emit bytes p = (Return tt, wrote p bytes).
Proof. reflexivity. Qed.

Lemma writes_emit (bytes : list Z) : writes (emit bytes) tt bytes.
Proof. intros p. reflexivity. Qed.

Lemma writes_ret {A : Type} (a : A) : writes (ret a) a [].
Proof. intros p. unfold ret. now rewrite wrote_nil. Qed.

Lemma writes_bind {A B : Type} (m : M A) (k : A -> M B) a b bs1 bs2 :
  writes m a bs1 -> writes (k a) b bs2 -> writes (bind m k) b (bs1 ++ bs2).
Proof.
  intros Hm Hk p. unfold bind. rewrite Hm, Hk. now rewrite wrote_wrote.
Qed.

Lemma writes_bytes_of {A : Type} (m : M A) a bs :
  writes m a bs -> bytes_of m = bs.
Proof. intros H. unfold bytes_of. rewrite H. reflexivity. Qed.

Lemma writes_u8 (b : Z) : 0 <= b < 256 -> writes (writeUInt8 b) tt [b].
Proof.
  intros Hb p. unfold writeUInt8. rewrite emit_run.
  now rewrite Z.mod_small by lia.
Qed.

(** ** The structure header *)

(** C2. [packStructHeader] writes the tiny-struct marker [0xB0 | n] and the
    signature byte for [n < 16]; STRUCT_8, the size byte and the signature
    byte for [16 <= n < 256]; STRUCT_16 and the two size bytes, and no
    signature byte, for [256 <= n < 65536]; and it throws for
    [n >= 65536], writing nothing. *)
Theorem packStructHeader_forms (size signature : Z) (p : Packer) :
  0 <= size -> 0 <= signature < 256 ->
  (size < 16 ->
   packStructHeader size signature p
   = (Return tt, wrote p [Z.lor 0xb0 size; signature]))
  /\ (16 <= size < 256 ->
      packStructHeader size signature p
      = (Return tt, wrote p [0xdc; size; signature]))
  /\ (256 <= size < 65536 ->
      packStructHeader size signature p
      = (Return tt, wrote p [0xdd; size / 256; size mod 256]))
  /\ (65536 <= size ->
      packStructHeader size signature p
      = (Throw (ProtocolError
                  ("Structures of size " ++ toString10 size
                   ++ " are not supported") None), p)).
Proof.
  intros Hsize Hsig. unfold packStructHeader.
  repeat split; intros H.
  - replace (size <? 16) with true by (symmetry; apply Z.ltb_lt; lia).
    destruct (lor_tiny TINY_STRUCT size) as [Hl Hm];
      [ simpl; auto | lia | ].
    change 0xb0 with TINY_STRUCT.
    apply (writes_bind _ _ tt tt [_] [_]).
    + rewrite Hl. intros q. unfold writeUInt8. rewrite emit_run.
      now rewrite Hm.
    + now apply writes_u8.
  - replace (size <? 16) with false by (symmetry; apply Z.ltb_ge; lia).
    replace (size <? 256) with true by (symmetry; apply Z.ltb_lt; lia).
    apply (writes_bind _ _ tt tt [_] [_; _]).
    + now apply writes_u8.
    + apply (writes_bind _ _ tt tt [_] [_]); now apply writes_u8.
  - replace (size <? 16) with false by (symmetry; apply Z.ltb_ge; lia).
    replace (size <? 256) with false by (symmetry; apply Z.ltb_ge; lia).
    replace (size <? 65536) with true by (symmetry; apply Z.ltb_lt; lia).
    rewrite div_sar0_nonneg by lia.
    rewrite js_mod_nonneg by lia.
    apply (writes_bind _ _ tt tt [_] [_; _]).
    + now apply writes_u8.
    + apply (writes_bind _ _ tt tt [_] [_]); apply writes_u8.
      * split; [ apply Z.div_pos; lia | apply Z.div_lt_upper_bound; lia ].
      * apply Z.mod_pos_bound; lia.
  - replace (size <? 16) with false by (symmetry; apply Z.ltb_ge; lia).
    replace (size <? 256) with false by (symmetry; apply Z.ltb_ge; lia).
    replace (size <? 65536) with false by (symmetry; apply Z.ltb_ge; lia).
    reflexivity.
Qed.

Lemma packStructHeader_forms_witness :
  packStructHeader 2 0x4e (new_Packer [])
  = (Return tt, wrote (new_Packer []) [0xb2; 0x4e])
  /\ packStructHeader 20 0x4e (new_Packer [])
     = (Return tt, wrote (new_Packer []) [0xdc; 20; 0x4e])
  /\ packStructHeader 300 0x4e (new_Packer [])
     = (Return tt, wrote (new_Packer []) [0xdd; 1; 44])
  /\ packStructHeader 65536 0x4e (new_Packer [])
     = (Throw (ProtocolError "Structures of size 65536 are not supported"
                 None), new_Packer []).
Proof.
  split; [ | split; [ | split ] ].
  - apply (packStructHeader_forms 2 0x4e (new_Packer [])); lia.
  - apply (packStructHeader_forms 20 0x4e (new_Packer [])); lia.
  - apply (packStructHeader_forms 300 0x4e (new_Packer [])); lia.
  - apply (packStructHeader_forms 65536 0x4e (new_Packer [])); lia.
Defined.

(** ** Integers *)

Lemma toInt32_mod (v : Z) : toInt32 v mod 2 ^ 32 = v mod 2 ^ 32.
Proof.
  unfold toInt32.
  rewrite Zminus_mod_idemp_l.
  f_equal. lia.
Qed.

Lemma toZ_int (v : Z) : - 2 ^ 63 <= v < 2 ^ 63 -> toZ (int v) = v.
Proof.
  intros Hv. unfold toZ, int. simpl.
  rewrite toInt32_mod.
  rewrite toInt32_small.
  - pose proof (Z.div_mod v (2 ^ 32)). lia.
  - split.
    + apply Z.div_le_lower_bound; lia.
    + apply Z.div_lt_upper_bound; lia.
Qed.

Lemma mod_neg_32 (l : Z) : - 2 ^ 31 <= l < 0 -> l mod 2 ^ 32 = l + 2 ^ 32.
Proof.
  intros Hl. symmetry.
  apply (Z.mod_unique l (2 ^ 32) (-1)); lia.
Qed.

Lemma low_eq_toZ (x : Integer) :
  Integer_wf x -> - 2 ^ 31 <= toZ x < 2 ^ 31 -> low x = toZ x.
Proof.
  intros [Hl Hh]. unfold toZ, int32_range in *.
  destruct (Z_lt_le_dec (low x) 0) as [Hneg | Hpos].
  - rewrite mod_neg_32 by lia. lia.
  - rewrite Z.mod_small by lia. lia.
Qed.

Lemma toZ_range (x : Integer) :
  Integer_wf x -> - 2 ^ 63 <= toZ x < 2 ^ 63.
Proof.
  intros [Hl Hh]. unfold toZ, int32_range in *.
  pose proof (Z.mod_pos_bound (low x) (2 ^ 32)). lia.
Qed.

Lemma greaterThanOrEqual_spec (x : Integer) (c : Z) :
  - 2 ^ 63 <= c < 2 ^ 63 -> greaterThanOrEqual x c = (c <=? toZ x).
Proof. intros Hc. unfold greaterThanOrEqual. now rewrite toZ_int. Qed.

Lemma lessThan_spec (x : Integer) (c : Z) :
  - 2 ^ 63 <= c < 2 ^ 63 -> lessThan x c = (toZ x <? c).
Proof. intros Hc. unfold lessThan. now rewrite toZ_int. Qed.

Ltac run_writes :=
  unfold bind, writeUInt8, writeInt8, writeInt16, writeInt32, writeFloat64,
    writeBytes, emit, wrote, be32;
  cbn [fst snd _ch _byteArraysSupported];
  rewrite <- ?app_assoc; reflexivity.

Ltac decide_order :=
  repeat match goal with
         | |- context [ ?a <=? ?b ] => destruct (Z.leb_spec a b); try lia
         | |- context [ ?a <? ?b ] => destruct (Z.ltb_spec a b); try lia
         end;
  cbn [andb orb negb].

(** The branch that [packInteger] takes, by the value of [x]. *)
Lemma packInteger_cases (x : Integer) :
  packInteger x =
    let v := toZ x in
    if (-16 <=? v) && (v <? 128) then writeInt8 (low x)
    else if (-128 <=? v) && (v <? -16) then
      writeUInt8 INT_8 ;;; writeInt8 (low x)
    else if (-32768 <=? v) && (v <? 32768) then
      writeUInt8 INT_16 ;;; writeInt16 (low x)
    else if (-2147483648 <=? v) && (v <? 2147483648) then
      writeUInt8 INT_32 ;;; writeInt32 (low x)
    else writeUInt8 INT_64 ;;; writeInt32 (high x) ;;; writeInt32 (low x).
Proof.
  unfold packInteger.
  rewrite !greaterThanOrEqual_spec, !lessThan_spec by lia.
  reflexivity.
Qed.

Lemma packInteger_by_range (x : Integer) (p : Packer) :
  Integer_wf x ->
  let v := toZ x in
  (-16 <= v < 128 ->
   packInteger x p = (Return tt, wrote p [v mod 256]))
  /\ (-128 <= v < -16 ->
      packInteger x p = (Return tt, wrote p [0xc8; v mod 256]))
  /\ (- 2 ^ 15 <= v < -128 \/ 128 <= v < 2 ^ 15 ->
      packInteger x p
      = (Return tt, wrote p [0xc9; byte_at 1 v; byte_at 0 v]))
  /\ (- 2 ^ 31 <= v < - 2 ^ 15 \/ 2 ^ 15 <= v < 2 ^ 31 ->
      packInteger x p = (Return tt, wrote p (0xca :: be32 v)))
  /\ (v < - 2 ^ 31 \/ 2 ^ 31 <= v ->
      packInteger x p
      = (Return tt, wrote p (0xcb :: be32 (high x) ++ be32 (low x)))).
Proof.
  intros Hwf v.
  rewrite packInteger_cases. fold v.
  repeat match goal with |- _ /\ _ => split end;
    intros Hv; cbv zeta;
    try rewrite (low_eq_toZ x Hwf) by (fold v; lia); fold v;
    clearbody v; decide_order; run_writes.
Qed.

Lemma Integer_wf_int (v : Z) : Integer_wf (int v).
Proof.
  unfold Integer_wf, int32_range, int, toInt32. cbn [low high].
  pose proof (Z.mod_pos_bound (v + 2 ^ 31) (2 ^ 32)).
  pose proof (Z.mod_pos_bound (v / 2 ^ 32 + 2 ^ 31) (2 ^ 32)).
  lia.
Qed.

(** C3. For every 64-bit signed integer [v], [packInteger] takes the
    narrowest form whose range holds [v]: one byte for [-16 <= v < 128];
    INT_8 and one byte for [-128 <= v < -16]; INT_16 and two bytes for the
    rest of [-2^15 <= v < 2^15]; INT_32 and four bytes for the rest of
    [-2^31 <= v < 2^31]; otherwise INT_64, the high word, then the low word.
    The bytes are those of [v] in two's complement, big-endian.  So 127
    gives 7F, 128 gives C9 00 80, -16 gives F0 and -17 gives C8 EF. *)
Theorem packInteger_narrowest (v : Z) (p : Packer) :
  - 2 ^ 63 <= v < 2 ^ 63 ->
  toZ (int v) = v
  /\ (-16 <= v < 128 ->
      packInteger (int v) p = (Return tt, wrote p [v mod 256]))
  /\ (-128 <= v < -16 ->
      packInteger (int v) p = (Return tt, wrote p [0xc8; v mod 256]))
  /\ (- 2 ^ 15 <= v < -128 \/ 128 <= v < 2 ^ 15 ->
      packInteger (int v) p
      = (Return tt, wrote p [0xc9; byte_at 1 v; byte_at 0 v]))
  /\ (- 2 ^ 31 <= v < - 2 ^ 15 \/ 2 ^ 15 <= v < 2 ^ 31 ->
      packInteger (int v) p = (Return tt, wrote p (0xca :: be32 v)))
  /\ (v < - 2 ^ 31 \/ 2 ^ 31 <= v ->
      packInteger (int v) p
      = (Return tt,
         wrote p (0xcb :: be32 (high (int v)) ++ be32 (low (int v)))))
  /\ bytes_of (packInteger (int 127)) = [0x7f]
  /\ bytes_of (packInteger (int 128)) = [0xc9; 0x00; 0x80]
  /\ bytes_of (packInteger (int (-16))) = [0xf0]
  /\ bytes_of (packInteger (int (-17))) = [0xc8; 0xef].
Proof.
  intros Hv.
  pose proof (packInteger_by_range (int v) p (Integer_wf_int v)) as H.
  cbv zeta in H. rewrite (toZ_int v Hv) in H.
  destruct H as (H1 & H2 & H3 & H4 & H5).
  split; [ now apply toZ_int | ].
  repeat match goal with |- _ /\ _ => split end;
    first [ assumption | reflexivity ].
Qed.

Lemma packInteger_narrowest_witness :
  packInteger (int 1000) (new_Packer [])
  = (Return tt, wrote (new_Packer []) [0xc9; 3; 232])
  /\ packInteger (int (-100)) (new_Packer [])
     = (Return tt, wrote (new_Packer []) [0xc8; 156])
  /\ packInteger (int 5) (new_Packer [])
     = (Return tt, wrote (new_Packer []) [5])
  /\ packInteger (int (-70000)) (new_Packer [])
     = (Return tt, wrote (new_Packer []) [0xca; 255; 254; 238; 144])
  /\ packInteger (int (2 ^ 40)) (new_Packer [])
     = (Return tt, wrote (new_Packer []) [0xcb; 0; 0; 1; 0; 0; 0; 0; 0]).
Proof.
  split; [ | split; [ | split; [ | split ] ] ].
  - apply (packInteger_narrowest 1000 (new_Packer [])); lia.
  - apply (packInteger_narrowest (-100) (new_Packer [])); lia.
  - apply (packInteger_narrowest 5 (new_Packer [])); lia.
  - apply (packInteger_narrowest (-70000) (new_Packer [])); lia.
  - apply (packInteger_narrowest (2 ^ 40) (new_Packer [])); lia.
Defined.

(** ** Sixteen-bit sizes *)

Lemma land_ff (n : Z) : Z.land n 0xff = n mod 256.
Proof. change 0xff with (Z.ones 8). now rewrite Z.land_ones by lia. Qed.

Lemma shiftr_8 (n : Z) : Z.shiftr n 8 = n / 256.
Proof. now rewrite Z.shiftr_div_pow2 by lia. Qed.

(** C9. For [256 <= n < 65536] the high size byte that the STRING_16 branch
    of [packString] and the MAP_16 branch of [packMapHeader] pass to
    [writeUInt8], [(n / 256) >> 0] with no [% 256], lies in [0, 255] and is
    [(n >> 8) & 0xFF]; a mask would not change it; the two size bytes are
    the big-endian unsigned 16-bit image of [n]. *)
Theorem size16_unmasked_high_byte (n : Z) :
  256 <= n < 65536 ->
  0 <= div_sar0 n 256 <= 255
  /\ div_sar0 n 256 = Z.land (Z.shiftr n 8) 0xff
  /\ js_mod (div_sar0 n 256) 256 = div_sar0 n 256
  /\ js_mod n 256 = Z.land n 0xff
  /\ Z.land (Z.shiftr n 8) 0xff * 256 + Z.land n 0xff = n
  /\ (forall p,
        packMapHeader n p
        = (Return tt,
           wrote p [MAP_16; Z.land (Z.shiftr n 8) 0xff; Z.land n 0xff]))
  /\ (forall x p,
        len (utf8_encode x) = n ->
        packString x p
        = (Return tt,
           wrote p ([STRING_16; Z.land (Z.shiftr n 8) 0xff; Z.land n 0xff]
                    ++ utf8_encode x))).
Proof.
  intros Hn.
  assert (Hq : div_sar0 n 256 = n / 256) by (apply div_sar0_nonneg; lia).
  assert (Hr : js_mod n 256 = n mod 256) by (apply js_mod_nonneg; lia).
  assert (Hb : 0 <= n / 256 <= 255).
  { split; [ apply Z.div_pos; lia | ].
    assert (n / 256 < 256) by (apply Z.div_lt_upper_bound; lia). lia. }
  assert (Hm : 0 <= n mod 256 < 256) by (apply Z.mod_pos_bound; lia).
  assert (Hland : Z.land (Z.shiftr n 8) 0xff = n / 256).
  { rewrite land_ff, shiftr_8. apply Z.mod_small. lia. }
  rewrite Hland, land_ff, Hq, Hr.
  repeat match goal with |- _ /\ _ => split end.
  - lia.
  - lia.
  - reflexivity.
  - rewrite js_mod_nonneg by lia. apply Z.mod_small. lia.
  - reflexivity.
  - pose proof (Z.div_mod n 256). lia.
  - intros p. unfold packMapHeader.
    replace (n <? 16) with false by (symmetry; apply Z.ltb_ge; lia).
    replace (n <? 256) with false by (symmetry; apply Z.ltb_ge; lia).
    replace (n <? 65536) with true by (symmetry; apply Z.ltb_lt; lia).
    rewrite Hq, Hr.
    apply (writes_bind _ _ tt tt [_] [_; _]);
      [ now apply writes_u8 | ].
    apply (writes_bind _ _ tt tt [_] [_]); apply writes_u8; lia.
  - intros x p Hx. unfold packString. rewrite Hx.
    replace (n <? 16) with false by (symmetry; apply Z.ltb_ge; lia).
    replace (n <? 256) with false by (symmetry; apply Z.ltb_ge; lia).
    replace (n <? 65536) with true by (symmetry; apply Z.ltb_lt; lia).
    rewrite Hq, Hr.
    apply (writes_bind _ _ tt tt [_] (_ :: _ :: _));
      [ now apply writes_u8 | ].
    apply (writes_bind _ _ tt tt [_] (_ :: _));
      [ apply writes_u8; lia | ].
    apply (writes_bind _ _ tt tt [_] _);
      [ apply writes_u8; lia | apply writes_emit ].
Qed.

Lemma size16_unmasked_high_byte_witness :
  div_sar0 300 256 = Z.land (Z.shiftr 300 8) 0xff
  /\ packMapHeader 300 (new_Packer [])
     = (Return tt, wrote (new_Packer []) [MAP_16; 1; 44]).
Proof.
  destruct (size16_unmasked_high_byte 300) as (_ & H2 & _ & _ & _ & H6 & _);
    [ lia | ].
  split; [ exact H2 | exact (H6 (new_Packer [])) ].
Defined.

(** ** The byte-array gate *)

(** C6. Once [disableByteArrays] has run, packing any byte array throws the
    codec's error and the Packer, so its channel, is as before the call. *)
Theorem packBytes_gate (p : Packer) (b : list Z) (fuel : nat) :
  let p' := snd (disableByteArrays p) in
  _byteArraysSupported p' = false
  /\ _ch p' = _ch p
  /\ pack (S fuel) (VBytes b) identity p'
     = (Throw (ProtocolError
         "Byte arrays are not supported by the database this driver is connected to"
         None), p')
  /\ packBytes b p'
     = (Throw (ProtocolError
         "Byte arrays are not supported by the database this driver is connected to"
         None), p').
Proof.
  cbv zeta. repeat split.
Qed.

(** ** [packable] defers every write and every hook failure *)

Lemma mapM_frame {A B : Type} (f : A -> M B) (xs : list A) :
  (forall x p, snd (f x p) = p) -> forall p, snd (mapM f xs p) = p.
Proof.
  intros Hf. induction xs as [ | x xs IH ]; intros p; simpl.
  - reflexivity.
  - unfold bind.
    specialize (Hf x p). destruct (f x p) as [[y | e | | ] p1]; simpl in Hf;
      subst p1; try reflexivity.
    specialize (IH p). destruct (mapM f xs p) as [[ys | e | | ] p2];
      simpl in IH; subst p2; reflexivity.
Qed.

Lemma packable_frame (fuel : nat) :
  forall x h p, snd (packable fuel x h p) = p.
Proof.
  induction fuel as [ | fuel IH ]; intros x h p; simpl.
  - reflexivity.
  - destruct (h x) as [ex | x']; [ reflexivity | ].
    destruct x' as [ | | [ | ] | | | | | | | repr failure items | sig fields
                   | | | ]; try reflexivity.
    + unfold try_catch, bind, Array_from.
      destruct failure as [e | ]; [ reflexivity | ].
      unfold ret. specialize (IH (VArray items) h p).
      destruct (packable fuel (VArray items) h p) as [[c | e | | ] p1];
        simpl in IH; subst p1; reflexivity.
    + unfold bind.
      pose proof (mapM_frame (fun f => packable fuel f h) fields
                    (fun y q => IH y h q) p) as Hm.
      destruct (mapM _ fields p) as [[cs | e | | ] p1]; simpl in Hm; subst p1;
        reflexivity.
Qed.

(** C10. The call [packable(x, h)] writes nothing: it leaves the Packer as
    it found it, whatever [x] and [h] are; for a Structure the field closures
    are built at once, and the closure returned is [packStruct] over them, so
    they run only when it runs. *)
Theorem packable_writes_nothing (fuel : nat) (x : value) (h : hook)
  (p : Packer) :
  snd (packable fuel x h p) = p
  /\ forall signature fields cs,
       h x = inr (VStruct signature fields) ->
       mapM (fun f => packable fuel f h) fields p = (Return cs, p) ->
       packable (S fuel) x h p = (Return (packStruct signature cs), p).
Proof.
  split.
  - apply packable_frame.
  - intros signature fields cs Hx Hcs. simpl. rewrite Hx.
    unfold bind. rewrite Hcs. reflexivity.
Qed.

Lemma packable_writes_nothing_witness :
  packable 3 (VStruct 0x4e [VString "a"; VInt (int 1)]) identity
    (new_Packer [])
  = (Return (packStruct 0x4e [packString "a"; packInteger (int 1)]),
     new_Packer []).
Proof.
  apply (proj2 (packable_writes_nothing 2
                  (VStruct 0x4e [VString "a"; VInt (int 1)])
                  identity (new_Packer []))
           0x4e [VString "a"; VInt (int 1)]); reflexivity.
Defined.

(** ** The dispatch of [unpack] *)

Ltac reduce_unpack :=
  cbn [unpack bind readUInt8];
  cbn -[repeatM readUInt8 readUInt16 readUInt32 readInt8 readInt16
        readInt32 readFloat64 utf8_decode _unpackMapLoop
        _unpackStructWithSize int toString16 integer_policy Z.to_nat].

Ltac open_binds :=
  unfold _unpackListWithSize, _unpackMapWithSize, _unpackByteArrayWithSize;
  unfold bind, ret, throw, apply_policy, integer_policy; cbv beta.

(** One step through a chain of binds: split on the innermost action. *)
Ltac step :=
  match goal with
  | |- context [ let (_, _) := ?e in _ ] =>
      lazymatch e with
      | (let (_, _) := _ in _) => fail
      | _ => destruct e as [[? | ? | | ] ?]
      end; cbv beta iota; cbn [negb is_null]
  end.


Section Dispatch.

Variable T : value -> string.
Variable this : Unpacker.
Variable h : hook.

Ltac finish :=
  first [ reflexivity
        | match goal with
          | |- context [ is_null ?a ] => is_var a; destruct a
          end; reflexivity
        | destruct (_useBigInt this), (_disableLosslessIntegers this);
          reflexivity ].

(** After the marker, [unpack] is the helper of the marker's kind. *)
Lemma unpack_answer (fuel : nat) (m : Z) (buf : list Z) :
  0 <= m < 256 ->
  unpack T this h (S fuel) (m :: buf) = answer T this h fuel m buf.
Proof.
  intros Hm. revert buf.
  enumerate m 0 256%nat; intros buf;
    reduce_unpack; open_binds; repeat step; finish.
Qed.






End Dispatch.

(** ** Reading what was written *)

Lemma readUInt8_cons (b : Z) (buf : list Z) :
  readUInt8 (b :: buf) = (Return (b mod 256), buf).
Proof. reflexivity. Qed.

Lemma readUInt8_byte (b : Z) (buf : list Z) :
  0 <= b < 256 -> readUInt8 (b :: buf) = (Return b, buf).
Proof. intros Hb. rewrite readUInt8_cons. now rewrite Z.mod_small. Qed.

Lemma readUInt16_be (w : Z) (buf : list Z) :
  readUInt16 (byte_at 1 w :: byte_at 0 w :: buf)
  = (Return (w mod 65536), buf).
Proof.
  unfold readUInt16, bind, ret. rewrite !readUInt8_cons.
  do 2 f_equal. unfold byte_at.
  change (2 ^ (8 * 1)) with 256. change (2 ^ (8 * 0)) with 1.
  Z.div_mod_to_equations. lia.
Qed.

Lemma readUInt16_pair (n : Z) (buf : list Z) :
  0 <= n < 65536 ->
  readUInt16 (n / 256 :: n mod 256 :: buf) = (Return n, buf).
Proof.
  intros Hn. unfold readUInt16, bind, ret. rewrite !readUInt8_cons.
  do 2 f_equal. Z.div_mod_to_equations. lia.
Qed.

Lemma readUInt32_be32 (w : Z) (buf : list Z) :
  readUInt32 (be32 w ++ buf) = (Return (w mod 2 ^ 32), buf).
Proof.
  unfold readUInt32, readUInt16, be32, bind, ret. simpl app.
  rewrite !readUInt8_cons.
  do 2 f_equal. unfold byte_at.
  change (2 ^ (8 * 3)) with 16777216. change (2 ^ (8 * 2)) with 65536.
  change (2 ^ (8 * 1)) with 256. change (2 ^ (8 * 0)) with 1.
  change (2 ^ 32) with 4294967296.
  Z.div_mod_to_equations. lia.
Qed.

Lemma readUInt32_size (n : Z) (buf : list Z) :
  0 <= n < 2 ^ 32 -> readUInt32 (be32 n ++ buf) = (Return n, buf).
Proof. intros Hn. rewrite readUInt32_be32. now rewrite Z.mod_small. Qed.

Lemma readInt8_byte (v : Z) (buf : list Z) :
  -128 <= v < 128 -> readInt8 (v mod 256 :: buf) = (Return v, buf).
Proof.
  intros Hv. unfold readInt8, bind, ret. rewrite readUInt8_cons.
  do 2 f_equal. unfold signed.
  change (2 ^ (8 - 1)) with 128. change (2 ^ 8) with 256.
  destruct (Z.ltb_spec ((v mod 256) mod 256) 128);
    (Z.div_mod_to_equations; lia).
Qed.

Lemma readInt16_be (v : Z) (buf : list Z) :
  - 2 ^ 15 <= v < 2 ^ 15 ->
  readInt16 (byte_at 1 v :: byte_at 0 v :: buf) = (Return v, buf).
Proof.
  intros Hv. unfold readInt16, bind, ret. rewrite readUInt16_be.
  do 2 f_equal. unfold signed.
  change (2 ^ (16 - 1)) with 32768. change (2 ^ 16) with 65536.
  destruct (Z.ltb_spec (v mod 65536) 32768);
    (Z.div_mod_to_equations; lia).
Qed.

Lemma readInt32_be32 (v : Z) (buf : list Z) :
  - 2 ^ 31 <= v < 2 ^ 31 ->
  readInt32 (be32 v ++ buf) = (Return v, buf).
Proof.
  intros Hv. unfold readInt32, bind, ret. rewrite readUInt32_be32.
  do 2 f_equal. unfold signed.
  change (2 ^ (32 - 1)) with 2147483648.
  change (2 ^ 32) with 4294967296 in *.
  destruct (Z.ltb_spec (v mod 4294967296) 2147483648);
    (Z.div_mod_to_equations; lia).
Qed.

Lemma readFloat64_be (bits : Z) (buf : list Z) :
  0 <= bits < 2 ^ 64 ->
  readFloat64
    (byte_at 7 bits :: byte_at 6 bits :: byte_at 5 bits :: byte_at 4 bits
     :: byte_at 3 bits :: byte_at 2 bits :: byte_at 1 bits :: byte_at 0 bits
     :: buf)
  = (Return bits, buf).
Proof.
  intros Hb.
  unfold readFloat64, readUInt32, readUInt16, bind, ret.
  rewrite !readUInt8_cons.
  do 2 f_equal. unfold byte_at.
  change (2 ^ (8 * 7)) with 72057594037927936.
  change (2 ^ (8 * 6)) with 281474976710656.
  change (2 ^ (8 * 5)) with 1099511627776.
  change (2 ^ (8 * 4)) with 4294967296.
  change (2 ^ (8 * 3)) with 16777216. change (2 ^ (8 * 2)) with 65536.
  change (2 ^ (8 * 1)) with 256. change (2 ^ (8 * 0)) with 1.
  change (2 ^ 32) with 4294967296.
  change (2 ^ 64) with 18446744073709551616 in Hb.
  Z.div_mod_to_equations. lia.
Qed.

(** ** Unknown markers *)





(** ** The integer policy *)

Lemma not_number (m : Z) (buf : list Z) :
  0 <= m < 256 -> kind_of m <> KNumber ->
  _unpackNumberOrInteger m buf = (Return VNull, buf).
Proof.
  intros Hm.
  enumerate m 0 256%nat; intros K;
    first [ reflexivity | exfalso; apply K; reflexivity ].
Qed.

(** C5. An integer decoded by [_unpackNumberOrInteger] comes out of
    [unpack] by the flags, in this order: the big integer of the same value
    under [useBigInt]; else, under [disableLosslessIntegers], the host
    number, minus or plus infinity outside the safe range; else the I64
    itself.  A double decoded from FLOAT_64 comes out as it is whatever the
    flags. *)
Theorem unpack_integer_policy (T : value -> string) (this : Unpacker)
  (h : hook) (fuel : nat) (m : Z) (buf : list Z) :
  0 <= m < 256 ->
  (forall i b',
     _unpackNumberOrInteger m buf = (Return (VInt i), b') ->
     unpack T this h (S fuel) (m :: buf)
     = (Return (if _useBigInt this then VBigInt (toZ i)
                else if _disableLosslessIntegers this then
                  VNumber (if toZ i <? - (2 ^ 53 - 1) then NEGATIVE_INFINITY
                           else if 2 ^ 53 - 1 <? toZ i then POSITIVE_INFINITY
                           else toNumber (toZ i))
                else VInt i), b'))
  /\ (forall x b',
        _unpackNumberOrInteger m buf = (Return (VNumber x), b') ->
        unpack T this h (S fuel) (m :: buf) = (Return (VNumber x), b'))
  /\ unpack T this h (S fuel) (FLOAT_64 :: buf)
     = (x <- readFloat64 ;; ret (VNumber x)) buf.
Proof.
  intros Hm.
  assert (Hk : forall v b', _unpackNumberOrInteger m buf = (Return v, b') ->
                            v <> VNull ->
                            unpack T this h (S fuel) (m :: buf)
                            = (Return (apply_policy this v), b')).
  { intros v b' H Hv. rewrite unpack_answer by exact Hm. unfold answer.
    destruct (kind_of m) eqn:K;
      try (rewrite not_number in H by (try exact Hm; rewrite K; discriminate);
           congruence).
    unfold bind. rewrite H. reflexivity. }
  split; [ | split ].
  - intros i b' H. rewrite (Hk _ _ H) by discriminate. reflexivity.
  - intros x b' H. rewrite (Hk _ _ H) by discriminate. reflexivity.
  - rewrite unpack_answer by (unfold FLOAT_64; lia).
    unfold answer. change (kind_of FLOAT_64) with KNumber. cbv iota.
    unfold _unpackNumberOrInteger.
    change (FLOAT_64 =? FLOAT_64) with true. cbv iota.
    unfold bind, ret.
    destruct (readFloat64 buf) as [[x | e | | ] b]; reflexivity.
Qed.

Lemma unpack_integer_policy_witness :
  unpack ToString_unused (mkUnpacker true false) identity 1
    [0xcb; 0x7f; 0xff; 0xff; 0xff; 0xff; 0xff; 0xff; 0xff]
  = (Return (VNumber POSITIVE_INFINITY), [])
  /\ unpack ToString_unused (mkUnpacker true true) identity 1
       [0xcb; 0x7f; 0xff; 0xff; 0xff; 0xff; 0xff; 0xff; 0xff]
     = (Return (VBigInt (2 ^ 63 - 1)), [])
  /\ unpack ToString_unused (mkUnpacker true false) identity 1 [0xc8; 0xef]
     = (Return (VNumber 0xc031000000000000), []).
Proof.
  split; [ | split ].
  - apply (proj1 (unpack_integer_policy ToString_unused
                    (mkUnpacker true false) identity 0 0xcb
                    [0x7f; 0xff; 0xff; 0xff; 0xff; 0xff; 0xff; 0xff]
                    ltac:(lia))
             (mkInteger (-1) 0x7fffffff) []).
    reflexivity.
  - apply (proj1 (unpack_integer_policy ToString_unused
                    (mkUnpacker true true) identity 0 0xcb
                    [0x7f; 0xff; 0xff; 0xff; 0xff; 0xff; 0xff; 0xff]
                    ltac:(lia))
             (mkInteger (-1) 0x7fffffff) []).
    reflexivity.
  - apply (proj1 (unpack_integer_policy ToString_unused
                    (mkUnpacker true false) identity 0 0xc8 [0xef]
                    ltac:(lia))
             (mkInteger (-17) (-1)) []).
    reflexivity.
Defined.

(** ** Hooks that throw *)

Lemma forEach_app {A : Type} (xs ys : list A) (body : A -> M unit)
  (p : Packer) :
  forEach (xs ++ ys) body p = (forEach xs body ;;; forEach ys body) p.
Proof.
  revert p. induction xs as [ | x xs IH ]; intros p; simpl.
  - reflexivity.
  - unfold bind in *.
    destruct (body x p) as [[[] | e | | ] p1]; try reflexivity.
    apply IH.
Qed.

Lemma bind_bind {S A B C : Type} (m : St S A) (f : A -> St S B)
  (g : B -> St S C) (s : S) :
  bind (bind m f) g s = bind m (fun x => bind (f x) g) s.
Proof.
  unfold bind. destruct (m s) as [[a | e | | ] s1]; reflexivity.
Qed.

Section StructDecoding.

Variable T : value -> string.
Variable this : Unpacker.
Variable h : hook.

(** Reading a structure: the header of [n] fields, then
    [_unpackStructWithSize]. *)
Lemma unpack_struct_header (fuel : nat) (n : Z) (buf : list Z) :
  0 <= n < 65536 ->
  unpack T this h (S fuel) (struct_header n ++ buf)
  = (s <- _unpackStructWithSize h (unpack T this h fuel) n ;;
     if is_null s then throw (unknown_marker (hd 0 (struct_header n)))
     else ret s) buf.
Proof.
  intros Hn. unfold struct_header.
  destruct (Z.ltb_spec n 16) as [H16 | H16].
  - revert buf. enumerate n 0 16%nat; intros buf;
      simpl app;
      rewrite unpack_answer
        by (vm_compute; split; [ discriminate | reflexivity ]);
      reflexivity.
  - destruct (Z.ltb_spec n 256) as [H256 | H256]; simpl app.
    + rewrite unpack_answer by (unfold STRUCT_8; lia).
      unfold answer. change (kind_of STRUCT_8) with KStruct. cbv iota.
      unfold _unpackStruct.
      change (Z.land STRUCT_8 240 =? TINY_STRUCT) with false.
      change (STRUCT_8 =? STRUCT_8) with true. cbv iota.
      rewrite bind_bind. unfold bind at 1.
      rewrite readUInt8_byte by lia. reflexivity.
    + rewrite unpack_answer by (unfold STRUCT_16; lia).
      unfold answer. change (kind_of STRUCT_16) with KStruct. cbv iota.
      unfold _unpackStruct.
      change (Z.land STRUCT_16 240 =? TINY_STRUCT) with false.
      change (STRUCT_16 =? STRUCT_8) with false.
      change (STRUCT_16 =? STRUCT_16) with true. cbv iota.
      rewrite bind_bind. unfold bind at 1.
      rewrite readUInt16_pair by lia. reflexivity.
Qed.


End StructDecoding.





(** ** What the Packer writes *)

Lemma writes_self {A : Type} (m : M A) (a : A) (bs : list Z) :
  writes m a bs -> writes m a (bytes_of m).
Proof. intros H. now rewrite (writes_bytes_of m a bs H). Qed.

Lemma writes_marker (m : Z) : writes (writeUInt8 m) tt [m mod 256].
Proof. intros p. reflexivity. Qed.

Lemma writes_size_byte (k n d : Z) :
  0 <= n < 2 ^ 32 -> d = 2 ^ (8 * k) -> 0 < k ->
  writes (writeUInt8 (js_mod (div_sar0 n d) 256)) tt [byte_at k n].
Proof.
  intros Hn Hd Hk p. unfold writeUInt8. rewrite emit_run.
  assert (2 <= d).
  { subst d. change 2 with (2 ^ 1) at 1. apply Z.pow_le_mono_r; lia. }
  rewrite div_sar0_nonneg by lia.
  rewrite js_mod_nonneg by (try lia; apply Z.div_pos; lia).
  rewrite Z.mod_mod by lia. unfold byte_at. now subst d.
Qed.

Lemma writes_low_byte (n : Z) :
  0 <= n -> writes (writeUInt8 (js_mod n 256)) tt [byte_at 0 n].
Proof.
  intros Hn p. unfold writeUInt8. rewrite emit_run.
  rewrite js_mod_nonneg by lia. rewrite Z.mod_mod by lia.
  unfold byte_at. change (2 ^ (8 * 0)) with 1. now rewrite Z.div_1_r.
Qed.

Lemma byte_at_1_small (n : Z) : 0 <= n < 65536 -> byte_at 1 n = n / 256.
Proof.
  intros Hn. unfold byte_at. change (2 ^ (8 * 1)) with 256.
  apply Z.mod_small. split; [ apply Z.div_pos; lia | ].
  apply Z.div_lt_upper_bound; lia.
Qed.

Lemma byte_at_0 (n : Z) : byte_at 0 n = n mod 256.
Proof. unfold byte_at. change (2 ^ (8 * 0)) with 1. now rewrite Z.div_1_r. Qed.

(** The tail shared by the four 32-bit size headers. *)
Lemma writes_size32 (m n : Z) (tail : M unit) (bs : list Z) :
  0 <= n < 2 ^ 32 -> 0 <= m < 256 -> writes tail tt bs ->
  writes (writeUInt8 m ;;;
          writeUInt8 (js_mod (div_sar0 n 16777216) 256) ;;;
          writeUInt8 (js_mod (div_sar0 n 65536) 256) ;;;
          writeUInt8 (js_mod (div_sar0 n 256) 256) ;;;
          writeUInt8 (js_mod n 256) ;;; tail) tt (m :: be32 n ++ bs).
Proof.
  intros Hn Hm Ht.
  apply (writes_bind _ _ tt tt [m]); [ now apply writes_u8 | ].
  apply (writes_bind _ _ tt tt [byte_at 3 n]);
    [ apply writes_size_byte; [ lia | reflexivity | lia ] | ].
  apply (writes_bind _ _ tt tt [byte_at 2 n]);
    [ apply writes_size_byte; [ lia | reflexivity | lia ] | ].
  apply (writes_bind _ _ tt tt [byte_at 1 n]);
    [ apply writes_size_byte; [ lia | reflexivity | lia ] | ].
  apply (writes_bind _ _ tt tt [byte_at 0 n]);
    [ apply writes_low_byte; lia | exact Ht ].
Qed.

Lemma bind_ret_tt (m : M unit) (p : Packer) : (m ;;; ret tt) p = m p.
Proof.
  unfold bind, ret. destruct (m p) as [[[] | e | | ] q]; reflexivity.
Qed.

Ltac size_cases n :=
  destruct (Z.ltb_spec n 16); [ | destruct (Z.ltb_spec n 256);
    [ | destruct (Z.ltb_spec n 65536);
        [ | destruct (Z.ltb_spec n 4294967296); [ | exfalso; lia ] ] ] ].

Lemma packListHeader_writes (n : Z) :
  0 <= n < 2 ^ 32 ->
  writes (packListHeader n) tt (size_header TINY_LIST LIST_8 LIST_16 LIST_32 n).
Proof.
  intros Hn. unfold packListHeader, size_header.
  change (2 ^ 32) with 4294967296 in Hn.
  size_cases n.
  - destruct (lor_tiny TINY_LIST n) as [Hl Hm]; [ simpl; auto | lia | ].
    intros p. unfold writeUInt8. rewrite emit_run. now rewrite Hl, Hm, <- Hl.
  - apply (writes_bind _ _ tt tt [_] [_]); now apply writes_u8.
  - apply (writes_bind _ _ tt tt [_] [_; _]); [ now apply writes_u8 | ].
    rewrite <- byte_at_1_small, <- byte_at_0 by lia.
    apply (writes_bind _ _ tt tt [_] [_]);
      [ apply writes_size_byte; [ lia | reflexivity | lia ]
      | apply writes_low_byte; lia ].
  - intros p.
    rewrite <- (app_nil_r (be32 n)).
    rewrite <- (writes_size32 LIST_32 n (ret tt) [] Hn
                  ltac:(unfold LIST_32; lia) (writes_ret tt) p).
    unfold bind. repeat (destruct (writeUInt8 _ _) as [[[] | ? | | ] ?];
                         try reflexivity).
Qed.

Lemma packMapHeader_writes (n : Z) :
  0 <= n < 2 ^ 32 ->
  writes (packMapHeader n) tt (size_header TINY_MAP MAP_8 MAP_16 MAP_32 n).
Proof.
  intros Hn. unfold packMapHeader, size_header.
  change (2 ^ 32) with 4294967296 in Hn.
  size_cases n.
  - destruct (lor_tiny TINY_MAP n) as [Hl Hm]; [ simpl; auto | lia | ].
    intros p. unfold writeUInt8. rewrite emit_run. now rewrite Hl, Hm, <- Hl.
  - apply (writes_bind _ _ tt tt [_] [_]); now apply writes_u8.
  - apply (writes_bind _ _ tt tt [_] [_; _]); [ now apply writes_u8 | ].
    rewrite div_sar0_nonneg by lia. rewrite js_mod_nonneg by lia.
    apply (writes_bind _ _ tt tt [_] [_]); apply writes_u8.
    + split; [ apply Z.div_pos; lia | apply Z.div_lt_upper_bound; lia ].
    + apply Z.mod_pos_bound; lia.
  - intros p.
    rewrite <- (app_nil_r (be32 n)).
    rewrite <- (writes_size32 MAP_32 n (ret tt) [] Hn
                  ltac:(unfold MAP_32; lia) (writes_ret tt) p).
    unfold bind. repeat (destruct (writeUInt8 _ _) as [[[] | ? | | ] ?];
                         try reflexivity).
Qed.

Lemma packString_writes (x : string) :
  len (utf8_encode x) < 2 ^ 32 ->
  writes (packString x) tt
    (size_header TINY_STRING STRING_8 STRING_16 STRING_32
       (len (utf8_encode x)) ++ utf8_encode x).
Proof.
  intros Hn. unfold packString, size_header.
  set (bytes := utf8_encode x) in *. set (n := len bytes) in *.
  assert (0 <= n) by (unfold n, len; lia).
  change (2 ^ 32) with 4294967296 in Hn.
  size_cases n.
  - destruct (lor_tiny TINY_STRING n) as [Hl Hm]; [ simpl; auto | lia | ].
    apply (writes_bind _ _ tt tt [_]); [ | apply writes_emit ].
    intros p. unfold writeUInt8. rewrite emit_run. now rewrite Hl, Hm, <- Hl.
  - apply (writes_bind _ _ tt tt [_] (_ :: _)); [ now apply writes_u8 | ].
    apply (writes_bind _ _ tt tt [_]);
      [ now apply writes_u8 | apply writes_emit ].
  - apply (writes_bind _ _ tt tt [_] (_ :: _ :: _));
      [ now apply writes_u8 | ].
    rewrite div_sar0_nonneg by lia. rewrite js_mod_nonneg by lia.
    apply (writes_bind _ _ tt tt [_] (_ :: _)).
    + apply writes_u8.
      split; [ apply Z.div_pos; lia | apply Z.div_lt_upper_bound; lia ].
    + apply (writes_bind _ _ tt tt [_]);
        [ apply writes_u8; apply Z.mod_pos_bound; lia | apply writes_emit ].
  - apply (writes_size32 STRING_32 n (writeBytes bytes) bytes);
      [ change (2 ^ 32) with 4294967296; lia | unfold STRING_32; lia
      | apply writes_emit ].
Qed.

Lemma packBytesHeader_writes (n : Z) :
  0 <= n < 2 ^ 32 -> writes (packBytesHeader n) tt (bytes_header n).
Proof.
  intros Hn. unfold packBytesHeader, bytes_header.
  change (2 ^ 32) with 4294967296 in Hn.
  destruct (Z.ltb_spec n 256); [ | destruct (Z.ltb_spec n 65536);
    [ | destruct (Z.ltb_spec n 4294967296); [ | exfalso; lia ] ] ].
  - apply (writes_bind _ _ tt tt [_] [_]); now apply writes_u8.
  - apply (writes_bind _ _ tt tt [_] [_; _]); [ now apply writes_u8 | ].
    rewrite <- byte_at_1_small, <- byte_at_0 by lia.
    apply (writes_bind _ _ tt tt [_] [_]);
      [ apply writes_size_byte; [ lia | reflexivity | lia ]
      | apply writes_low_byte; lia ].
  - intros p.
    rewrite <- (app_nil_r (be32 n)).
    rewrite <- (writes_size32 BYTES_32 n (ret tt) [] Hn
                  ltac:(unfold BYTES_32; lia) (writes_ret tt) p).
    unfold bind. repeat (destruct (writeUInt8 _ _) as [[[] | ? | | ] ?];
                         try reflexivity).
Qed.

Lemma forEach_writes {A : Type} (xs : list A) (body : A -> M unit)
  (enc : A -> list Z) (ok : Packer -> Prop) :
  (forall p bs, ok p -> ok (wrote p bs)) ->
  Forall (fun x => forall p, ok p -> body x p = (Return tt, wrote p (enc x)))
    xs ->
  forall p, ok p -> forEach xs body p = (Return tt, wrote p (flat_map enc xs)).
Proof.
  intros Hok H. induction H as [ | x xs Hx _ IH ]; intros p Hp; simpl.
  - unfold ret. now rewrite wrote_nil.
  - unfold bind. rewrite Hx by exact Hp.
    rewrite IH by (apply Hok; exact Hp). now rewrite wrote_wrote.
Qed.

Lemma supports_bytes_wrote (p : Packer) (bs : list Z) :
  supports_bytes p -> supports_bytes (wrote p bs).
Proof. auto. Qed.

Lemma packBytes_writes (a : list Z) (p : Packer) :
  len a < 2 ^ 32 -> supports_bytes p ->
  packBytes a p
  = (Return tt, wrote p (bytes_header (len a) ++ map (fun b => b mod 256) a)).
Proof.
  intros Hn Hp. unfold packBytes. rewrite Hp.
  unfold bind. rewrite packBytesHeader_writes by (unfold len in *; lia).
  assert (Hloop : forall q,
             forEach a (fun b => writeInt8 b) q
             = (Return tt, wrote q (flat_map (fun b => [b mod 256]) a))).
  { intros q.
    apply (forEach_writes a _ (fun b => [b mod 256]) (fun _ => True));
      [ auto | | exact I ].
    apply Forall_forall. intros b _ q' _. reflexivity. }
  rewrite Hloop, wrote_wrote. do 3 f_equal.
Qed.

(** ** Decoding the scalars *)

Lemma repeatM_bytes (l rest : list Z) :
  repeatM (List.length l) readUInt8 (l ++ rest)
  = (Return (map (fun b => b mod 256) l), rest).
Proof.
  induction l as [ | b l IH ].
  - reflexivity.
  - cbn [repeatM List.length app]. unfold bind at 1.
    rewrite readUInt8_cons. unfold bind at 1. rewrite IH. reflexivity.
Qed.

Lemma utf8_decode_encode (x : string) (rest : list Z) :
  utf8_decode (len (utf8_encode x)) (utf8_encode x ++ rest)
  = (Return x, rest).
Proof.
  unfold utf8_decode, len. rewrite Nat2Z.id.
  unfold bind, ret. rewrite repeatM_bytes.
  do 2 f_equal. unfold utf8_encode. rewrite !map_map.
  rewrite <- (string_of_list_ascii_of_string x) at 2.
  f_equal. rewrite <- (map_id (list_ascii_of_string x)) at 2.
  apply map_ext. intros c.
  pose proof (N_ascii_bounded c) as Hc.
  rewrite Z.mod_small by lia.
  rewrite N2Z.id. apply ascii_N_embedding.
Qed.

Lemma repeatM_int8 (a rest : list Z) :
  forallb int8b a = true ->
  repeatM (List.length a) readInt8 (map (fun b => b mod 256) a ++ rest)
  = (Return a, rest).
Proof.
  induction a as [ | b a IH ]; intros H.
  - reflexivity.
  - cbn [forallb] in H. apply andb_true_iff in H. destruct H as [Hb Ha].
    unfold int8b in Hb.
    cbn [repeatM List.length app map]. unfold bind at 1.
    rewrite readInt8_byte by lia. unfold bind at 1.
    rewrite IH by exact Ha. reflexivity.
Qed.

Lemma int_toZ (i : Integer) : Integer_wf i -> int (toZ i) = i.
Proof.
  intros [Hl Hh]. destruct i as [l h]. unfold int, toZ, int32_range in *.
  cbn [low high] in *.
  assert (Hq : (h * 2 ^ 32 + l mod 2 ^ 32) / 2 ^ 32 = h).
  { rewrite Z.div_add_l by lia. rewrite Z.div_small; [ lia | ].
    apply Z.mod_pos_bound. lia. }
  rewrite Hq. rewrite (toInt32_small h) by lia.
  f_equal. unfold toInt32.
  change (2 ^ 32) with 4294967296. change (2 ^ 31) with 2147483648 in *.
  Z.div_mod_to_equations. lia.
Qed.

Lemma Integer_wf_of_bool (i : Integer) :
  int32b (low i) && int32b (high i) = true -> Integer_wf i.
Proof.
  intros H. apply andb_true_iff in H. destruct H as [H1 H2].
  unfold int32b in *. unfold Integer_wf, int32_range. lia.
Qed.

Section Scalars.

Variable T : value -> string.
Variable this : Unpacker.
Variable h : hook.

Local Abbreviation self := (unpack T this h).

Ltac by_answer :=
  intros; rewrite unpack_answer
    by (vm_compute; split; [ discriminate | reflexivity ]);
  reflexivity.

Lemma unpack_FLOAT_64 fuel buf :
  self (S fuel) (FLOAT_64 :: buf)
  = (x <- (x <- readFloat64 ;; ret (VNumber x)) ;;
     ret (apply_policy this x)) buf.
Proof. by_answer. Qed.

Lemma unpack_INT_8 fuel buf :
  self (S fuel) (INT_8 :: buf)
  = (x <- (b <- readInt8 ;; ret (VInt (int b))) ;;
     ret (apply_policy this x)) buf.
Proof. by_answer. Qed.

Lemma unpack_INT_16 fuel buf :
  self (S fuel) (INT_16 :: buf)
  = (x <- (b <- readInt16 ;; ret (VInt (int b))) ;;
     ret (apply_policy this x)) buf.
Proof. by_answer. Qed.

Lemma unpack_INT_32 fuel buf :
  self (S fuel) (INT_32 :: buf)
  = (x <- (b <- readInt32 ;; ret (VInt (int b))) ;;
     ret (apply_policy this x)) buf.
Proof. by_answer. Qed.

Lemma unpack_INT_64 fuel buf :
  self (S fuel) (INT_64 :: buf)
  = (x <- (high <- readInt32 ;; low <- readInt32 ;;
           ret (VInt (mkInteger low high))) ;;
     ret (apply_policy this x)) buf.
Proof. by_answer. Qed.

Lemma unpack_tiny_int fuel v buf :
  -16 <= v < 128 ->
  self (S fuel) (v mod 256 :: buf)
  = (Return (integer_policy this (int v)), buf).
Proof.
  intros Hv. revert buf.
  enumerate v (-16) 144%nat; intros buf;
    (rewrite unpack_answer
       by (vm_compute; split; [ discriminate | reflexivity ]));
    reflexivity.
Qed.

(** An integer comes back by the policy of the Unpacker. *)
Lemma unpack_packInteger fuel i rest :
  Integer_wf i ->
  self (S fuel) (bytes_of (packInteger i) ++ rest)
  = (Return (integer_policy this i), rest).
Proof.
  intros Hwf.
  pose proof (toZ_range i Hwf) as Hr.
  pose proof (int_toZ i Hwf) as Hi.
  destruct (packInteger_by_range i (new_Packer []) Hwf)
    as (H1 & H2 & H3 & H4 & H5).
  unfold bytes_of.
  destruct (Z_lt_le_dec (toZ i) (- 2 ^ 31)) as [C | C];
    [ | destruct (Z_lt_le_dec (toZ i) (- 2 ^ 15)) as [C1 | C1];
        [ | destruct (Z_lt_le_dec (toZ i) (-128)) as [C2 | C2];
            [ | destruct (Z_lt_le_dec (toZ i) (-16)) as [C3 | C3];
                [ | destruct (Z_lt_le_dec (toZ i) 128) as [C4 | C4];
                    [ | destruct (Z_lt_le_dec (toZ i) (2 ^ 15))
                          as [C5 | C5];
                        [ | destruct (Z_lt_le_dec (toZ i) (2 ^ 31))
                              as [C6 | C6] ] ] ] ] ] ].
  all: first [ rewrite H1 by lia | rewrite H2 by lia | rewrite H3 by lia
             | rewrite H4 by lia | rewrite H5 by lia ];
    cbn [snd wrote _ch new_Packer app].
  all: try (rewrite unpack_tiny_int by lia; now rewrite Hi).
  all: try (change 0xc8 with INT_8; rewrite unpack_INT_8;
            unfold bind, ret; rewrite readInt8_byte by lia;
            cbn [apply_policy]; now rewrite Hi).
  all: try (change 0xc9 with INT_16; rewrite unpack_INT_16;
            unfold bind, ret; rewrite readInt16_be by lia;
            cbn [apply_policy]; now rewrite Hi).
  all: try (change 0xca with INT_32; rewrite unpack_INT_32;
            unfold bind, ret;
            change (be32 (toZ i) ++ rest) with (be32 (toZ i) ++ rest);
            rewrite readInt32_be32 by lia;
            cbn [apply_policy]; now rewrite Hi).
  all: change 0xcb with INT_64; rewrite unpack_INT_64;
    unfold bind, ret; rewrite <- app_assoc;
    destruct Hwf as [Hl Hh]; unfold int32_range in *;
    rewrite readInt32_be32 by lia;
    rewrite readInt32_be32 by lia;
    cbn [apply_policy]; destruct i; reflexivity.
Qed.

Lemma unpack_packFloat fuel bits rest :
  0 <= bits < 2 ^ 64 ->
  self (S fuel) (bytes_of (packFloat bits) ++ rest)
  = (Return (VNumber bits), rest).
Proof.
  intros Hb.
  change (bytes_of (packFloat bits) ++ rest)
    with (FLOAT_64 :: byte_at 7 bits :: byte_at 6 bits :: byte_at 5 bits
          :: byte_at 4 bits :: byte_at 3 bits :: byte_at 2 bits
          :: byte_at 1 bits :: byte_at 0 bits :: rest).
  rewrite unpack_FLOAT_64. unfold bind, ret.
  rewrite readFloat64_be by exact Hb. reflexivity.
Qed.

End Scalars.

(** ** Decoding the size headers *)

Section Headers.

Variable T : value -> string.
Variable this : Unpacker.
Variable h : hook.

Local Abbreviation self := (unpack T this h).

Ltac by_answer :=
  rewrite unpack_answer
    by (vm_compute; split; [ discriminate | reflexivity ]);
  reflexivity.

Ltac tiny_case n :=
  let buf := fresh "buf" in
  intros buf; revert buf; enumerate n 0 16%nat; intros buf;
  cbn [app]; by_answer.

Lemma unpack_STRING_8 fuel buf :
  self (S fuel) (STRING_8 :: buf)
  = (n <- readUInt8 ;; s <- utf8_decode n ;; ret (VString s)) buf.
Proof. by_answer. Qed.

Lemma unpack_STRING_16 fuel buf :
  self (S fuel) (STRING_16 :: buf)
  = (n <- readUInt16 ;; s <- utf8_decode n ;; ret (VString s)) buf.
Proof. by_answer. Qed.

Lemma unpack_STRING_32 fuel buf :
  self (S fuel) (STRING_32 :: buf)
  = (n <- readUInt32 ;; s <- utf8_decode n ;; ret (VString s)) buf.
Proof. by_answer. Qed.

Lemma unpack_string_header fuel n :
  0 <= n < 2 ^ 32 ->
  forall buf,
  self (S fuel)
    (size_header TINY_STRING STRING_8 STRING_16 STRING_32 n ++ buf)
  = (s <- utf8_decode n ;; ret (VString s)) buf.
Proof.
  intros Hn. unfold size_header.
  change (2 ^ 32) with 4294967296 in Hn.
  size_cases n.
  - tiny_case n.
  - intros buf. cbn [app]. rewrite unpack_STRING_8.
    unfold bind at 1. now rewrite readUInt8_byte by lia.
  - intros buf. cbn [app]. rewrite unpack_STRING_16.
    unfold bind at 1. now rewrite readUInt16_pair by lia.
  - intros buf. cbn [app]. rewrite unpack_STRING_32.
    unfold bind at 1. now rewrite readUInt32_size by lia.
Qed.

Lemma unpack_LIST_8 fuel buf :
  self (S fuel) (LIST_8 :: buf)
  = (n <- readUInt8 ;; _unpackListWithSize (self fuel) n) buf.
Proof. by_answer. Qed.

Lemma unpack_LIST_16 fuel buf :
  self (S fuel) (LIST_16 :: buf)
  = (n <- readUInt16 ;; _unpackListWithSize (self fuel) n) buf.
Proof. by_answer. Qed.

Lemma unpack_LIST_32 fuel buf :
  self (S fuel) (LIST_32 :: buf)
  = (n <- readUInt32 ;; _unpackListWithSize (self fuel) n) buf.
Proof. by_answer. Qed.

Lemma unpack_list_header fuel n :
  0 <= n < 2 ^ 32 ->
  forall buf,
  self (S fuel) (size_header TINY_LIST LIST_8 LIST_16 LIST_32 n ++ buf)
  = _unpackListWithSize (self fuel) n buf.
Proof.
  intros Hn. unfold size_header.
  change (2 ^ 32) with 4294967296 in Hn.
  size_cases n.
  - tiny_case n.
  - intros buf. cbn [app]. rewrite unpack_LIST_8.
    unfold bind at 1. now rewrite readUInt8_byte by lia.
  - intros buf. cbn [app]. rewrite unpack_LIST_16.
    unfold bind at 1. now rewrite readUInt16_pair by lia.
  - intros buf. cbn [app]. rewrite unpack_LIST_32.
    unfold bind at 1. now rewrite readUInt32_size by lia.
Qed.

Lemma unpack_MAP_8 fuel buf :
  self (S fuel) (MAP_8 :: buf)
  = (n <- readUInt8 ;; _unpackMapWithSize T (self fuel) n) buf.
Proof. by_answer. Qed.

Lemma unpack_MAP_16 fuel buf :
  self (S fuel) (MAP_16 :: buf)
  = (n <- readUInt16 ;; _unpackMapWithSize T (self fuel) n) buf.
Proof. by_answer. Qed.

Lemma unpack_MAP_32 fuel buf :
  self (S fuel) (MAP_32 :: buf)
  = (n <- readUInt32 ;; _unpackMapWithSize T (self fuel) n) buf.
Proof. by_answer. Qed.

Lemma unpack_map_header fuel n :
  0 <= n < 2 ^ 32 ->
  forall buf,
  self (S fuel) (size_header TINY_MAP MAP_8 MAP_16 MAP_32 n ++ buf)
  = _unpackMapWithSize T (self fuel) n buf.
Proof.
  intros Hn. unfold size_header.
  change (2 ^ 32) with 4294967296 in Hn.
  size_cases n.
  - tiny_case n.
  - intros buf. cbn [app]. rewrite unpack_MAP_8.
    unfold bind at 1. now rewrite readUInt8_byte by lia.
  - intros buf. cbn [app]. rewrite unpack_MAP_16.
    unfold bind at 1. now rewrite readUInt16_pair by lia.
  - intros buf. cbn [app]. rewrite unpack_MAP_32.
    unfold bind at 1. now rewrite readUInt32_size by lia.
Qed.

Lemma unpack_BYTES_8 fuel buf :
  self (S fuel) (BYTES_8 :: buf)
  = (n <- readUInt8 ;; _unpackByteArrayWithSize n) buf.
Proof. by_answer. Qed.

Lemma unpack_BYTES_16 fuel buf :
  self (S fuel) (BYTES_16 :: buf)
  = (n <- readUInt16 ;; _unpackByteArrayWithSize n) buf.
Proof. by_answer. Qed.

Lemma unpack_BYTES_32 fuel buf :
  self (S fuel) (BYTES_32 :: buf)
  = (n <- readUInt32 ;; _unpackByteArrayWithSize n) buf.
Proof. by_answer. Qed.

Lemma unpack_bytes_header fuel n :
  0 <= n < 2 ^ 32 ->
  forall buf,
  self (S fuel) (bytes_header n ++ buf) = _unpackByteArrayWithSize n buf.
Proof.
  intros Hn. unfold bytes_header.
  change (2 ^ 32) with 4294967296 in Hn.
  destruct (Z.ltb_spec n 256); [ | destruct (Z.ltb_spec n 65536) ].
  - intros buf. cbn [app]. rewrite unpack_BYTES_8.
    unfold bind at 1. now rewrite readUInt8_byte by lia.
  - intros buf. cbn [app]. rewrite unpack_BYTES_16.
    unfold bind at 1. now rewrite readUInt16_pair by lia.
  - intros buf. cbn [app]. rewrite unpack_BYTES_32.
    unfold bind at 1. now rewrite readUInt32_size by lia.
Qed.

Lemma unpack_packString fuel x rest :
  len (utf8_encode x) < 2 ^ 32 ->
  self (S fuel) (bytes_of (packString x) ++ rest)
  = (Return (VString x), rest).
Proof.
  intros Hx.
  rewrite (writes_bytes_of _ _ _ (packString_writes x Hx)).
  rewrite <- app_assoc.
  rewrite unpack_string_header by (unfold len in *; lia).
  unfold bind, ret. now rewrite utf8_decode_encode.
Qed.

Lemma unpack_packBytes fuel a rest :
  len a < 2 ^ 32 -> forallb int8b a = true ->
  self (S fuel) (bytes_of (packBytes a) ++ rest) = (Return (VBytes a), rest).
Proof.
  intros Hn Ha. unfold bytes_of.
  rewrite packBytes_writes by (auto; reflexivity).
  cbn [snd wrote _ch new_Packer app]. rewrite <- app_assoc.
  rewrite unpack_bytes_header by (unfold len in *; lia).
  unfold _unpackByteArrayWithSize, bind, ret, len.
  rewrite Nat2Z.id. now rewrite repeatM_int8.
Qed.

End Headers.

(** ** Packing a carried value writes its encoding *)

Lemma depth_child (l : list value) (x : value) :
  In x l -> (depth x <= list_max (map depth l))%nat.
Proof.
  intros Hx.
  assert (H : (list_max (map depth l) <= list_max (map depth l))%nat)
    by apply Nat.le_refl.
  apply list_max_le in H. rewrite Forall_forall in H.
  apply H. now apply in_map.
Qed.

Lemma depth_entry (props : list (string * value)) (kv : string * value) :
  In kv props ->
  (depth (snd kv) <= list_max (map (fun kv => depth (snd kv)) props))%nat.
Proof.
  intros Hx.
  assert (H : (list_max (map (fun kv => depth (snd kv)) props)
               <= list_max (map (fun kv => depth (snd kv)) props))%nat)
    by apply Nat.le_refl.
  apply list_max_le in H. rewrite Forall_forall in H.
  apply H. now apply (in_map (fun kv => depth (snd kv))).
Qed.

Lemma packInteger_writes (i : Integer) :
  writes (packInteger i) tt (bytes_of (packInteger i)).
Proof.
  assert (H : exists bs, writes (packInteger i) tt bs).
  { unfold packInteger.
    destruct (_ && _);
      [ | destruct (_ && _); [ | destruct (_ && _); [ | destruct (_ && _) ] ] ];
      eexists; intros p; run_writes. }
  destruct H as [bs H]. now apply writes_self with (bs := bs).
Qed.

Lemma packFloat_writes (bits : Z) :
  writes (packFloat bits) tt (bytes_of (packFloat bits)).
Proof. intros p. unfold packFloat, bytes_of. run_writes. Qed.

Lemma packStructHeader_writes (n signature : Z) :
  0 <= n < 65536 ->
  writes (packStructHeader n signature) tt
    (bytes_of (packStructHeader n signature)).
Proof.
  intros Hn.
  assert (H : exists bs, writes (packStructHeader n signature) tt bs).
  { unfold packStructHeader.
    destruct (Z.ltb_spec n 16);
      [ | destruct (Z.ltb_spec n 256);
          [ | destruct (Z.ltb_spec n 65536); [ | exfalso; lia ] ] ];
      eexists; intros p; run_writes. }
  destruct H as [bs H]. now apply writes_self with (bs := bs).
Qed.

Lemma packStructHeader_small (n signature : Z) :
  0 <= n < 256 -> 0 <= signature < 256 ->
  bytes_of (packStructHeader n signature) = struct_header n ++ [signature].
Proof.
  intros Hn Hs. apply writes_bytes_of with (a := tt).
  unfold packStructHeader, struct_header.
  destruct (Z.ltb_spec n 16); [ | destruct (Z.ltb_spec n 256) ].
  - destruct (lor_tiny TINY_STRUCT n) as [Hl Hm]; [ simpl; auto | lia | ].
    apply (writes_bind _ _ tt tt [_] [_]); [ | now apply writes_u8 ].
    intros p. unfold writeUInt8. rewrite emit_run. now rewrite Hl, Hm, <- Hl.
  - apply (writes_bind _ _ tt tt [_] [_; _]); [ now apply writes_u8 | ].
    apply (writes_bind _ _ tt tt [_] [_]); now apply writes_u8.
  - exfalso; lia.
Qed.

Lemma count_defined_bounds (props : list (string * value)) :
  0 <= count_defined props <= len props.
Proof.
  unfold len. induction props as [ | [k v] props IH ]; simpl List.length.
  - simpl. lia.
  - cbn [count_defined]. destruct (is_undefined v); lia.
Qed.

Lemma mapM_closures (fuel : nat) (fields : list value) :
  Forall (fun x =>
            exists c : closure,
              (forall p, packable fuel x identity p = (Return c, p))
              /\ (forall q, supports_bytes q ->
                            c q = (Return tt, wrote q (encode x))))
    fields ->
  exists cs : list closure,
    (forall p,
       mapM (fun f => packable fuel f identity) fields p = (Return cs, p))
    /\ List.length cs = List.length fields
    /\ (forall q, supports_bytes q ->
                  forEach cs (fun c => c) q
                  = (Return tt, wrote q (flat_map encode fields))).
Proof.
  induction 1 as [ | x fields (c & Hc1 & Hc2) _ (cs & Hcs1 & Hlen & Hcs2) ].
  - exists []. repeat split.
    intros q _. cbn. unfold ret. now rewrite wrote_nil.
  - exists (c :: cs). split; [ | split ].
    + intros p. cbn [mapM]. unfold bind. rewrite Hc1, Hcs1. reflexivity.
    + simpl. now rewrite Hlen.
    + intros q Hq. cbn [forEach flat_map]. unfold bind.
      rewrite Hc2 by exact Hq.
      rewrite Hcs2 by (apply supports_bytes_wrote; exact Hq).
      now rewrite wrote_wrote.
Qed.

Lemma packable_encode (bound : Z) :
  bound <= 65536 ->
  forall x, carried bound true x = true ->
  forall fuel, (depth x < fuel)%nat ->
  exists c : closure,
    (forall p, packable fuel x identity p = (Return c, p))
    /\ (forall q, supports_bytes q -> c q = (Return tt, wrote q (encode x))).
Proof.
  intros Hbound x.
  induction x as [ x Hleaf | l IH | repr failure items IH
                 | signature fields IH | props IH ]
    using value_nested_ind;
    intros Hc fuel Hfuel;
    (destruct fuel as [ | fuel ]; [ exfalso; lia | ]).
  - destruct x as [ | | [ | ] | | | | | | | | | | | ];
      try contradiction; try discriminate Hc;
      eexists; (split; [ intros p; reflexivity | intros q Hq ]).
    + reflexivity.
    + reflexivity.
    + reflexivity.
    + apply packFloat_writes.
    + cbn [carried] in Hc. unfold uint32b in Hc.
      cbn [encode].
      rewrite (writes_bytes_of _ _ _ (packString_writes s ltac:(lia))).
      apply packString_writes. lia.
    + apply packInteger_writes.
    + cbn [carried] in Hc. apply andb_true_iff in Hc.
      destruct Hc as [Hn Ha]. unfold uint32b in Hn.
      cbn [encode]. unfold bytes_of at 1.
      rewrite (packBytes_writes a (new_Packer [])) by (try reflexivity; lia).
      cbn [snd wrote _ch new_Packer app].
      apply packBytes_writes; [ lia | exact Hq ].
  - cbn [carried] in Hc. apply andb_true_iff in Hc. destruct Hc as [Hn Hl].
    unfold uint32b in Hn. cbn [depth] in Hfuel.
    eexists. split; [ intros p; reflexivity | intros q Hq ].
    cbn [encode].
    rewrite (writes_bytes_of _ _ _ (packListHeader_writes (len l) ltac:(lia))).
    unfold bind at 1. rewrite packListHeader_writes by lia.
    rewrite (forEach_writes l _
               (fun xi => if is_undefined xi then bytes_of (writeUInt8 NULL)
                          else encode xi) supports_bytes);
      [ now rewrite wrote_wrote | apply supports_bytes_wrote | | exact Hq ].
    rewrite forallb_forall in Hl. rewrite Forall_forall in IH.
    apply Forall_forall. intros xi Hxi q' Hq'.
    pose proof (depth_child l xi Hxi) as Hd.
    destruct fuel as [ | fuel ]; [ exfalso; lia | ].
    destruct (is_undefined xi) eqn:Hu.
    + reflexivity.
    + specialize (Hl xi Hxi). rewrite Hu in Hl. cbn [andb orb] in Hl.
      destruct (IH xi Hxi Hl (S fuel) ltac:(lia)) as (c & Hc1 & Hc2).
      unfold bind. rewrite Hc1. now apply Hc2.
  - discriminate Hc.
  - cbn [carried] in Hc.
    apply andb_true_iff in Hc. destruct Hc as [Hc Hf].
    apply andb_true_iff in Hc. destruct Hc as [Hs Hn].
    cbn [depth] in Hfuel.
    assert (Hfields : Forall
              (fun x => exists c : closure,
                 (forall p, packable fuel x identity p = (Return c, p))
                 /\ (forall q, supports_bytes q ->
                               c q = (Return tt, wrote q (encode x))))
              fields).
    { rewrite forallb_forall in Hf. rewrite Forall_forall in IH.
      apply Forall_forall. intros x Hx.
      pose proof (depth_child fields x Hx) as Hd.
      apply (IH x Hx (Hf x Hx)). lia. }
    destruct (mapM_closures fuel fields Hfields) as (cs & Hcs1 & Hlen & Hcs2).
    exists (packStruct signature cs). split.
    + intros p. cbn [packable]. unfold identity at 1. unfold bind.
      rewrite Hcs1. reflexivity.
    + intros q Hq. unfold packStruct, bind.
      assert (Hlen' : len cs = len fields) by (unfold len; now rewrite Hlen).
      rewrite Hlen'.
      rewrite packStructHeader_writes by (unfold len in *; lia).
      rewrite Hcs2 by (apply supports_bytes_wrote; exact Hq).
      now rewrite wrote_wrote.
  - cbn [carried] in Hc.
    apply andb_true_iff in Hc. destruct Hc as [Hc Hf].
    apply andb_true_iff in Hc. destruct Hc as [_ Hn].
    unfold uint32b in Hn. cbn [depth] in Hfuel.
    pose proof (count_defined_bounds props) as Hcount.
    eexists. split; [ intros p; reflexivity | intros q Hq ].
    cbn [encode]. cbv zeta.
    rewrite (writes_bytes_of _ _ _
               (packMapHeader_writes (count_defined props) ltac:(lia))).
    unfold bind at 1. rewrite packMapHeader_writes by lia.
    rewrite (forEach_writes props _
               (fun kv => if is_undefined (snd kv) then []
                          else bytes_of (packString (fst kv))
                               ++ encode (snd kv)) supports_bytes);
      [ now rewrite wrote_wrote | apply supports_bytes_wrote | | exact Hq ].
    rewrite forallb_forall in Hf. rewrite Forall_forall in IH.
    apply Forall_forall. intros kv Hkv q' Hq'.
    pose proof (depth_entry props kv Hkv) as Hd.
    destruct (is_undefined (snd kv)) eqn:Hu.
    + unfold ret. now rewrite wrote_nil.
    + specialize (Hf kv Hkv). rewrite Hu in Hf.
      apply andb_true_iff in Hf. destruct Hf as [Hk Hv].
      cbn [andb orb] in Hv. unfold uint32b in Hk.
      destruct (IH kv Hkv Hv fuel ltac:(lia)) as (c & Hc1 & Hc2).
      unfold bind.
      rewrite (packString_writes (fst kv) ltac:(lia)).
      rewrite Hc1.
      rewrite Hc2 by (apply supports_bytes_wrote; exact Hq').
      rewrite wrote_wrote.
      now rewrite (writes_bytes_of _ _ _
                     (packString_writes (fst kv) ltac:(lia))).
Qed.

(** ** Unpacking an encoding gives the value back *)

Lemma repeatM_flat_map {A B : Type} (dec : R B) (enc : A -> list Z)
  (nrm : A -> B) (l : list A) :
  Forall (fun x => forall rest, dec (enc x ++ rest) = (Return (nrm x), rest))
    l ->
  forall rest,
    repeatM (List.length l) dec (flat_map enc l ++ rest)
    = (Return (map nrm l), rest).
Proof.
  induction 1 as [ | x l Hx _ IH ]; intros rest.
  - reflexivity.
  - cbn [repeatM List.length flat_map map]. rewrite <- app_assoc.
    unfold bind at 1. rewrite Hx. unfold bind at 1. rewrite IH.
    reflexivity.
Qed.

(** *** Assignments that rebuild an object *)

Lemma precedes_differ (k k' : string) :
  precedes k k' = true -> String.eqb k k' = false.
Proof.
  unfold precedes. intros H.
  destruct (String.eqb_spec k k') as [ E | ]; [ subst k' | reflexivity ].
  destruct (array_index k) as [ i | ].
  - rewrite Z.ltb_irrefl in H. discriminate H.
  - discriminate H.
Qed.

Lemma keys_in_order_remove (before : list string) (k : string)
  (after : list string) :
  keys_in_order (before ++ k :: after) = true ->
  keys_in_order (before ++ after) = true
  /\ forallb (fun k' => precedes k' k) before = true.
Proof.
  induction before as [ | k0 before IH ]; cbn [app keys_in_order forallb].
  - intros H. apply andb_true_iff in H. now destruct H.
  - intros H. apply andb_true_iff in H. destruct H as [H0 H].
    rewrite forallb_app in H0. apply andb_true_iff in H0.
    destruct H0 as [Hb Ha]. cbn [forallb] in Ha.
    apply andb_true_iff in Ha. destruct Ha as [Hk Ha].
    destruct (IH H) as [IH1 IH2].
    rewrite forallb_app, Hb, Ha, IH1, Hk, IH2. now split.
Qed.

Lemma has_own_later (acc : list (string * value)) (k : string) :
  forallb (fun k' => precedes k' k) (map fst acc) = true ->
  has_own acc k = false.
Proof.
  induction acc as [ | [k0 w] acc IH ]; cbn [map fst forallb has_own existsb].
  - reflexivity.
  - intros H. apply andb_true_iff in H. destruct H as [H0 H].
    rewrite (precedes_differ _ _ H0). now apply IH.
Qed.

(** A key that comes after every own key in the order of [Object.keys] is
    added at the end. *)
Lemma add_own_later (acc : list (string * value)) (k : string) (v : value) :
  forallb (fun k' => precedes k' k) (map fst acc) = true ->
  add_own acc k v = acc ++ [(k, v)].
Proof.
  unfold add_own. destruct (array_index k) as [ i | ] eqn:Ek;
    [ | reflexivity ].
  induction acc as [ | [k0 w] acc IH ];
    cbn [map fst forallb insert_index app].
  - reflexivity.
  - intros H. apply andb_true_iff in H. destruct H as [H0 H].
    unfold precedes in H0. rewrite Ek in H0.
    destruct (array_index k0) as [ j | ]; [ | discriminate H0 ].
    rewrite H0. f_equal. now apply IH.
Qed.

Lemma obj_set_later (acc : list (string * value)) (np : bool) (k : string)
  (v : value) :
  forallb (fun k' => precedes k' k) (map fst acc) = true ->
  String.eqb "__proto__" k = false ->
  obj_set (mkObject acc np) k v = Some (mkObject (acc ++ [(k, v)]) np).
Proof.
  intros Hk Hp. unfold obj_set. cbn [own null_prototype].
  rewrite (has_own_later acc k Hk).
  rewrite String.eqb_sym, Hp. cbn [andb].
  now rewrite (add_own_later acc k v Hk).
Qed.

Lemma unpackMapLoop_entries (T : value -> string) (self : R value)
  (props : list (string * value)) :
  Forall (fun kv =>
            is_undefined (snd kv) = false ->
            (forall rest,
               self (bytes_of (packString (fst kv)) ++ rest)
               = (Return (VString (fst kv)), rest))
            /\ (forall rest,
                  self (encode (snd kv) ++ rest)
                  = (Return (normalize (snd kv)), rest)))
    props ->
  forall acc np rest,
    keys_in_order (map fst acc ++ map fst props) = true ->
    existsb (String.eqb "__proto__") (map fst props) = false ->
    _unpackMapLoop T self (Z.to_nat (count_defined props)) (mkObject acc np)
      (flat_map (fun kv => if is_undefined (snd kv) then []
                           else bytes_of (packString (fst kv))
                                ++ encode (snd kv)) props ++ rest)
    = (Return
         (mkObject
            (acc ++ flat_map (fun kv => if is_undefined (snd kv) then []
                                        else [(fst kv, normalize (snd kv))])
                      props) np), rest).
Proof.
  induction 1 as [ | [k v] props Hkv _ IH ]; intros acc np rest Ho Hp.
  - cbn. now rewrite app_nil_r.
  - cbn [count_defined flat_map fst snd] in *.
    cbn [map fst existsb] in Ho, Hp.
    apply orb_false_iff in Hp. destruct Hp as [Hk Hp].
    destruct (keys_in_order_remove _ _ _ Ho) as [Ho' Hlater].
    destruct (is_undefined v) eqn:Hu.
    + cbn [app]. now apply IH.
    + destruct (Hkv eq_refl) as [Hkey Hval].
      pose proof (count_defined_bounds props) as Hcount.
      replace (Z.to_nat (1 + count_defined props))
        with (S (Z.to_nat (count_defined props))) by lia.
      cbn [_unpackMapLoop]. rewrite <- !app_assoc.
      unfold bind at 1. rewrite Hkey.
      unfold bind at 1. rewrite Hval.
      cbn [property_key host]. unfold bind at 1, ret at 1.
      rewrite (obj_set_later acc np k (normalize v) Hlater Hk).
      cbn [host]. unfold bind at 1, ret at 1.
      rewrite IH.
      * now rewrite <- app_assoc.
      * rewrite map_app, <- app_assoc. exact Ho.
      * exact Hp.
Qed.

Section Roundtrip.

Variable T : value -> string.

Local Abbreviation self := (unpack T new_Unpacker identity).

Lemma unpack_null fuel rest :
  self (S fuel) (bytes_of (writeUInt8 NULL) ++ rest) = (Return VNull, rest).
Proof. reflexivity. Qed.

Lemma unpack_encode :
  forall x, carried 256 true x = true ->
  forall fuel, (depth x < fuel)%nat ->
  forall rest, self fuel (encode x ++ rest) = (Return (normalize x), rest).
Proof.
  intros x.
  induction x as [ x Hleaf | l IH | repr failure items IH
                 | signature fields IH | props IH ]
    using value_nested_ind;
    intros Hc fuel Hfuel rest;
    (destruct fuel as [ | fuel ]; [ exfalso; lia | ]).
  - destruct x as [ | | [ | ] | | | | | | | | | | | ];
      try contradiction; try discriminate Hc;
      cbn [carried] in Hc; cbn [encode normalize].
    + reflexivity.
    + reflexivity.
    + reflexivity.
    + apply unpack_packFloat. lia.
    + apply unpack_packString. unfold uint32b in Hc. lia.
    + rewrite unpack_packInteger by now apply Integer_wf_of_bool.
      reflexivity.
    + apply andb_true_iff in Hc. destruct Hc as [Hn Ha].
      apply unpack_packBytes; [ unfold uint32b in Hn; lia | exact Ha ].
  - cbn [carried] in Hc. apply andb_true_iff in Hc. destruct Hc as [Hn Hl].
    unfold uint32b in Hn. cbn [depth] in Hfuel.
    cbn [encode normalize].
    rewrite (writes_bytes_of _ _ _
               (packListHeader_writes (len l) ltac:(lia))).
    rewrite <- app_assoc.
    rewrite unpack_list_header by lia.
    unfold _unpackListWithSize, bind, len. rewrite Nat2Z.id.
    rewrite (repeatM_flat_map _ _
               (fun xi => if is_undefined xi then VNull else normalize xi));
      [ reflexivity | ].
    rewrite forallb_forall in Hl. rewrite Forall_forall in IH.
    apply Forall_forall. intros xi Hxi rest'.
    pose proof (depth_child l xi Hxi) as Hd.
    destruct fuel as [ | fuel ]; [ exfalso; lia | ].
    destruct (is_undefined xi) eqn:Hu.
    + apply unpack_null.
    + specialize (Hl xi Hxi). rewrite Hu in Hl. cbn [andb orb] in Hl.
      apply (IH xi Hxi Hl). lia.
  - discriminate Hc.
  - cbn [carried] in Hc.
    apply andb_true_iff in Hc. destruct Hc as [Hc Hf].
    apply andb_true_iff in Hc. destruct Hc as [Hs Hn].
    cbn [depth] in Hfuel. cbn [encode normalize].
    assert (Hlen : 0 <= len fields < 256) by (unfold len in *; lia).
    rewrite packStructHeader_small by lia.
    rewrite <- !app_assoc.
    rewrite unpack_struct_header by lia.
    unfold _unpackStructWithSize, bind. cbn [app].
    rewrite readUInt8_byte by lia.
    unfold len. rewrite Nat2Z.id.
    rewrite (repeatM_flat_map _ _ normalize); [ reflexivity | ].
    rewrite forallb_forall in Hf. rewrite Forall_forall in IH.
    apply Forall_forall. intros x Hx rest'.
    pose proof (depth_child fields x Hx) as Hd.
    apply (IH x Hx (Hf x Hx)). lia.
  - cbn [carried] in Hc.
    apply andb_true_iff in Hc. destruct Hc as [Hc Hf].
    apply andb_true_iff in Hc. destruct Hc as [Hd Hn].
    unfold uint32b in Hn. cbn [depth] in Hfuel.
    pose proof (count_defined_bounds props) as Hcount.
    cbn [encode normalize].
    rewrite (writes_bytes_of _ _ _
               (packMapHeader_writes (count_defined props) ltac:(lia))).
    rewrite <- app_assoc.
    rewrite unpack_map_header by lia.
    unfold map_keys in Hd. apply andb_true_iff in Hd.
    destruct Hd as [Ho Hp]. apply negb_true_iff in Hp.
    unfold _unpackMapWithSize, new_object, bind.
    rewrite unpackMapLoop_entries;
      [ reflexivity | | exact Ho | exact Hp ].
    rewrite forallb_forall in Hf. rewrite Forall_forall in IH.
    apply Forall_forall. intros kv Hkv Hu.
    pose proof (depth_entry props kv Hkv) as Hdepth.
    specialize (Hf kv Hkv). rewrite Hu in Hf.
    apply andb_true_iff in Hf. destruct Hf as [Hk Hv].
    cbn [andb orb] in Hv. unfold uint32b in Hk.
    destruct fuel as [ | fuel ]; [ exfalso; lia | ].
    split; intros rest'.
    + apply unpack_packString. lia.
    + apply (IH kv Hkv Hv). lia.
Qed.

End Roundtrip.

Lemma flat_map_length_child {A : Type} (enc : A -> list Z) (l : list A)
  (x : A) :
  In x l -> (List.length (enc x) <= List.length (flat_map enc l))%nat.
Proof.
  induction l as [ | y l IH ]; intros Hx; [ contradiction | ].
  cbn [flat_map]. rewrite length_app.
  destruct Hx as [-> | Hx]; [ lia | ]. specialize (IH Hx). lia.
Qed.

Lemma size_header_nonempty (tiny m8 m16 m32 n : Z) :
  (1 <= List.length (size_header tiny m8 m16 m32 n))%nat.
Proof.
  unfold size_header.
  destruct (n <? 16); [ | destruct (n <? 256); [ | destruct (n <? 65536) ] ];
    simpl; lia.
Qed.

(** Each level of nesting costs at least its header byte. *)
Lemma depth_le_encode :
  forall x, carried 256 true x = true ->
  (depth x <= List.length (encode x))%nat.
Proof.
  intros x.
  induction x as [ x Hleaf | l IH | repr failure items IH
                 | signature fields IH | props IH ]
    using value_nested_ind; intros Hc.
  - destruct x; try contradiction; simpl; lia.
  - cbn [carried] in Hc. apply andb_true_iff in Hc. destruct Hc as [Hn Hl].
    unfold uint32b in Hn. cbn [depth encode].
    rewrite (writes_bytes_of _ _ _
               (packListHeader_writes (len l) ltac:(lia))).
    rewrite length_app.
    pose proof (size_header_nonempty TINY_LIST LIST_8 LIST_16 LIST_32 (len l)).
    enough ((list_max (map depth l)
             <= List.length
                  (flat_map (fun xi => if is_undefined xi
                                       then bytes_of (writeUInt8 NULL)
                                       else encode xi) l))%nat) by lia.
    apply list_max_le. apply Forall_forall. intros d Hd.
    apply in_map_iff in Hd. destruct Hd as (xi & <- & Hxi).
    rewrite forallb_forall in Hl. rewrite Forall_forall in IH.
    pose proof (flat_map_length_child
                  (fun xi => if is_undefined xi
                             then bytes_of (writeUInt8 NULL)
                             else encode xi) l xi Hxi) as Hlen.
    cbv beta in Hlen.
    specialize (Hl xi Hxi).
    destruct (is_undefined xi) eqn:Hu.
    + destruct xi; try discriminate Hu. simpl. lia.
    + cbn [andb orb] in Hl. specialize (IH xi Hxi Hl). lia.
  - discriminate Hc.
  - cbn [carried] in Hc.
    apply andb_true_iff in Hc. destruct Hc as [Hc Hf].
    apply andb_true_iff in Hc. destruct Hc as [Hs Hn].
    cbn [depth encode].
    assert (Hlen : 0 <= len fields < 256) by (unfold len in *; lia).
    rewrite packStructHeader_small by lia.
    rewrite !length_app.
    enough ((list_max (map depth fields)
             <= List.length (flat_map encode fields))%nat).
    { cbn [List.length]. lia. }
    apply list_max_le. apply Forall_forall. intros d Hd.
    apply in_map_iff in Hd. destruct Hd as (x & <- & Hx).
    rewrite forallb_forall in Hf. rewrite Forall_forall in IH.
    pose proof (flat_map_length_child encode fields x Hx).
    specialize (IH x Hx (Hf x Hx)). lia.
  - cbn [carried] in Hc.
    apply andb_true_iff in Hc. destruct Hc as [Hc Hf].
    apply andb_true_iff in Hc. destruct Hc as [Hd Hn].
    unfold uint32b in Hn.
    pose proof (count_defined_bounds props) as Hcount.
    cbn [depth encode].
    rewrite (writes_bytes_of _ _ _
               (packMapHeader_writes (count_defined props) ltac:(lia))).
    rewrite length_app.
    pose proof (size_header_nonempty TINY_MAP MAP_8 MAP_16 MAP_32
                  (count_defined props)).
    enough ((list_max (map (fun kv => depth (snd kv)) props)
             <= List.length
                  (flat_map (fun kv => if is_undefined (snd kv) then []
                                       else bytes_of (packString (fst kv))
                                            ++ encode (snd kv)) props))%nat)
      by lia.
    apply list_max_le. apply Forall_forall. intros d Hdd.
    apply in_map_iff in Hdd. destruct Hdd as (kv & <- & Hkv).
    rewrite forallb_forall in Hf. rewrite Forall_forall in IH.
    pose proof (flat_map_length_child
                  (fun kv => if is_undefined (snd kv) then []
                             else bytes_of (packString (fst kv))
                                  ++ encode (snd kv)) props kv Hkv) as Hlen.
    cbv beta in Hlen.
    specialize (Hf kv Hkv).
    destruct (is_undefined (snd kv)) eqn:Hu.
    + destruct (snd kv); try discriminate Hu. simpl. lia.
    + apply andb_true_iff in Hf. destruct Hf as [_ Hv].
      cbn [andb orb] in Hv. specialize (IH kv Hkv Hv).
      rewrite length_app in Hlen. lia.
Qed.

(** ** Round trip *)

(** Packing with a fresh Packer and unpacking with default flags and
    identity hooks gives the value back, [undefined] list elements as [null]
    and [undefined] map entries dropped, at every level of nesting, when
    every Structure has fewer than 256 fields. *)
Lemma roundtrip_normalize (T : value -> string) (x : value) (ch : list Z) :
  carried 256 true x = true ->
  (forall fuel, (depth x < fuel)%nat ->
     pack fuel x identity (new_Packer ch)
     = (Return tt, mkPacker (ch ++ encode x) true))
  /\ Unpacker_unpack T new_Unpacker identity (encode x)
     = (Return (normalize x), []).
Proof.
  intros Hc. split.
  - intros fuel Hfuel.
    destruct (packable_encode 256 ltac:(lia) x Hc fuel Hfuel)
      as (c & Hc1 & Hc2).
    unfold pack, bind. rewrite Hc1.
    now rewrite (Hc2 (new_Packer ch) eq_refl).
  - unfold Unpacker_unpack.
    rewrite <- (app_nil_r (encode x)) at 2.
    apply unpack_encode; [ exact Hc | ].
    pose proof (depth_le_encode x Hc). lia.
Qed.

Lemma carried_defined (bound : Z) (x : value) :
  carried bound false x = true -> is_undefined x = false.
Proof. destruct x; intros H; try reflexivity; discriminate H. Qed.

Lemma carried_with_undefined (bound : Z) :
  forall x, carried bound false x = true -> carried bound true x = true.
Proof.
  intros x.
  induction x as [ x Hleaf | l IH | repr failure items IH
                 | signature fields IH | props IH ]
    using value_nested_ind; intros Hc.
  - destruct x; try contradiction; exact Hc.
  - cbn [carried] in *. apply andb_true_iff in Hc. destruct Hc as [Hn Hl].
    rewrite Hn. cbn [andb].
    rewrite forallb_forall in *. rewrite Forall_forall in IH.
    intros xi Hxi. specialize (Hl xi Hxi). cbn [andb orb] in *.
    rewrite (IH xi Hxi Hl). apply orb_true_r.
  - discriminate Hc.
  - cbn [carried] in *. apply andb_true_iff in Hc. destruct Hc as [Hn Hl].
    rewrite Hn. cbn [andb].
    rewrite forallb_forall in *. rewrite Forall_forall in IH.
    intros x Hx. now apply IH, Hl.
  - cbn [carried] in *. apply andb_true_iff in Hc. destruct Hc as [Hn Hl].
    rewrite Hn. cbn [andb].
    rewrite forallb_forall in *. rewrite Forall_forall in IH.
    intros kv Hkv. specialize (Hl kv Hkv).
    apply andb_true_iff in Hl. destruct Hl as [Hk Hv].
    rewrite Hk. cbn [andb orb] in *.
    rewrite (IH kv Hkv Hv). apply orb_true_r.
Qed.

(** A value with no [undefined] inside comes back unchanged. *)
Lemma normalize_defined (bound : Z) :
  forall x, carried bound false x = true -> normalize x = x.
Proof.
  intros x.
  induction x as [ x Hleaf | l IH | repr failure items IH
                 | signature fields IH | props IH ]
    using value_nested_ind; intros Hc.
  - destruct x; try contradiction; reflexivity.
  - cbn [carried] in Hc. apply andb_true_iff in Hc. destruct Hc as [_ Hl].
    cbn [normalize]. f_equal.
    rewrite forallb_forall in Hl. rewrite Forall_forall in IH.
    rewrite <- (map_id l) at 2. apply map_ext_in. intros xi Hxi.
    specialize (Hl xi Hxi). cbn [andb orb] in Hl.
    rewrite (carried_defined _ _ Hl). now apply IH.
  - discriminate Hc.
  - cbn [carried] in Hc. apply andb_true_iff in Hc. destruct Hc as [_ Hl].
    cbn [normalize]. f_equal.
    rewrite forallb_forall in Hl. rewrite Forall_forall in IH.
    rewrite <- (map_id fields) at 2. apply map_ext_in. intros x Hx.
    now apply IH, Hl.
  - cbn [carried] in Hc. apply andb_true_iff in Hc. destruct Hc as [_ Hl].
    cbn [normalize]. f_equal.
    rewrite forallb_forall in Hl. rewrite Forall_forall in IH.
    induction props as [ | [k v] props IHp ]; [ reflexivity | ].
    cbn [flat_map fst snd].
    pose proof (Hl (k, v) (or_introl eq_refl)) as Hkv.
    apply andb_true_iff in Hkv. destruct Hkv as [_ Hv].
    cbn [andb orb snd] in Hv.
    rewrite (carried_defined _ _ Hv).
    pose proof (IH (k, v) (or_introl eq_refl) Hv) as Hnv.
    cbn [snd] in Hnv. rewrite Hnv.
    cbn [app]. f_equal. apply IHp.
    + intros kv Hkv. apply IH. now right.
    + intros kv Hkv. apply Hl. now right.
Qed.

(** Round trip on the recognized domain, Structures below 256 fields. *)
Lemma roundtrip_below_struct_16 (T : value -> string) (x : value)
  (ch : list Z) :
  carried 256 false x = true ->
  (forall fuel, (depth x < fuel)%nat ->
     pack fuel x identity (new_Packer ch)
     = (Return tt, mkPacker (ch ++ encode x) true))
  /\ Unpacker_unpack T new_Unpacker identity (encode x) = (Return x, []).
Proof.
  intros Hc.
  destruct (roundtrip_normalize T x ch (carried_with_undefined 256 x Hc))
    as [Hp Hu].
  split; [ exact Hp | ].
  now rewrite Hu, (normalize_defined 256 x Hc).
Qed.

(** C1. The round trip fails on the recognized domain: a Structure of 256
    fields, all [null], with signature 4E is in the domain; the Packer
    writes DD 01 00 and the 256 fields, with no signature byte; the Unpacker
    takes the first field for the signature and runs out of bytes at the
    last field. *)
Theorem roundtrip_fails_at_struct_16 :
  recognized_domain struct_256 = true
  /\ pack 2 struct_256 identity (new_Packer [])
     = (Return tt, new_Packer (0xdd :: 0x01 :: 0x00 :: repeat 0xc0 256))
  /\ Unpacker_unpack ToString_unused new_Unpacker identity
       (0xdd :: 0x01 :: 0x00 :: repeat 0xc0 256)
     = (Throw ReadOutOfRange, [])
  /\ Unpacker_unpack ToString_unused new_Unpacker identity
       (0xdd :: 0x01 :: 0x00 :: 0x4e :: repeat 0xc0 256)
     = (Return struct_256, []).
Proof.
  repeat split; vm_compute; reflexivity.
Qed.






(** * Further properties of the codec *)

(** ** Round trips in a stream *)

(** X1. A value of the recognized domain whose Structures have fewer than
    256 fields is written after whatever the channel already holds, and
    decoding its bytes gives the value back and leaves the bytes that follow
    untouched, so consecutive values decode one after another. *)
Theorem roundtrip_in_stream (T : value -> string) (x : value)
  (ch rest : list Z) (fuel fuel' : nat) :
  carried 256 false x = true ->
  (depth x < fuel)%nat -> (depth x < fuel')%nat ->
  pack fuel x identity (new_Packer ch)
  = (Return tt, new_Packer (ch ++ encode x))
  /\ unpack T new_Unpacker identity fuel' (encode x ++ rest)
     = (Return x, rest)
  /\ Unpacker_unpack T new_Unpacker identity (encode x) = (Return x, []).
Proof.
  intros Hc Hf Hf'.
  pose proof (carried_with_undefined 256 x Hc) as Hc'.
  destruct (roundtrip_below_struct_16 T x ch Hc) as [Hp Hu].
  split; [ now apply Hp | ].
  split; [ | exact Hu ].
  rewrite (unpack_encode T x Hc' fuel' Hf' rest).
  now rewrite (normalize_defined 256 x Hc).
Qed.

Lemma roundtrip_in_stream_witness :
  pack 2 (VStruct 0x4e [VString "a"; VInt (int 1)]) identity
    (new_Packer [0xc0])
  = (Return tt,
     new_Packer ([0xc0] ++ encode (VStruct 0x4e [VString "a"; VInt (int 1)])))
  /\ unpack ToString_unused new_Unpacker identity 2
       (encode (VStruct 0x4e [VString "a"; VInt (int 1)]) ++ [0xc3])
     = (Return (VStruct 0x4e [VString "a"; VInt (int 1)]), [0xc3])
  /\ Unpacker_unpack ToString_unused new_Unpacker identity
       (encode (VStruct 0x4e [VString "a"; VInt (int 1)]))
     = (Return (VStruct 0x4e [VString "a"; VInt (int 1)]), []).
Proof.
  apply (roundtrip_in_stream ToString_unused
           (VStruct 0x4e [VString "a"; VInt (int 1)]) [0xc0] [0xc3] 2 2);
    [ reflexivity | simpl; lia | simpl; lia ].
Defined.



(** ** Scalars under every flag and hook *)

(** X3. Whatever the flags and the hook of the Unpacker, a packed I64 comes
    back as the integer policy makes it: the big integer of the same value
    under [useBigInt], else the host number under
    [disableLosslessIntegers], else the same I64. *)
Theorem integer_roundtrip_by_policy (T : value -> string) (this : Unpacker)
  (h : hook) (fuel : nat) (i : Integer) (rest : list Z) :
  Integer_wf i ->
  unpack T this h (S fuel) (bytes_of (packInteger i) ++ rest)
  = (Return (if _useBigInt this then VBigInt (toZ i)
             else if _disableLosslessIntegers this then
               VNumber (toNumberOrInfinity i)
             else VInt i), rest).
Proof. intros Hwf. now rewrite unpack_packInteger. Qed.

Lemma integer_roundtrip_by_policy_witness :
  unpack ToString_unused (mkUnpacker false true) identity 1
    (bytes_of (packInteger (mkInteger (-17) (-1))) ++ [0xc0])
  = (Return (VBigInt (-17)), [0xc0]).
Proof.
  apply (integer_roundtrip_by_policy ToString_unused (mkUnpacker false true)
           identity 0 (mkInteger (-17) (-1)) [0xc0]).
  unfold Integer_wf, int32_range. simpl. lia.
Defined.

(** X4. The Unpacker takes an integer in any width at least as wide as it
    needs, not only the narrowest one that the Packer writes: INT_8, INT_16
    and INT_32 followed by the big-endian two's complement of [v], and
    INT_64 followed by two 32-bit words, decode to that integer. *)
Theorem unpack_accepts_wider_integers (T : value -> string) (this : Unpacker)
  (h : hook) (fuel : nat) (v hi lo : Z) (rest : list Z) :
  (-128 <= v < 128 ->
   unpack T this h (S fuel) (INT_8 :: v mod 256 :: rest)
   = (Return (integer_policy this (int v)), rest))
  /\ (- 2 ^ 15 <= v < 2 ^ 15 ->
      unpack T this h (S fuel) (INT_16 :: byte_at 1 v :: byte_at 0 v :: rest)
      = (Return (integer_policy this (int v)), rest))
  /\ (- 2 ^ 31 <= v < 2 ^ 31 ->
      unpack T this h (S fuel) (INT_32 :: be32 v ++ rest)
      = (Return (integer_policy this (int v)), rest))
  /\ (- 2 ^ 31 <= hi < 2 ^ 31 -> - 2 ^ 31 <= lo < 2 ^ 31 ->
      unpack T this h (S fuel) (INT_64 :: be32 hi ++ be32 lo ++ rest)
      = (Return (integer_policy this (mkInteger lo hi)), rest)).
Proof.
  repeat match goal with |- _ /\ _ => split end.
  - intros Hv. rewrite unpack_INT_8. unfold bind, ret.
    now rewrite readInt8_byte.
  - intros Hv. rewrite unpack_INT_16. unfold bind, ret.
    now rewrite readInt16_be.
  - intros Hv. rewrite unpack_INT_32. unfold bind, ret.
    now rewrite readInt32_be32.
  - intros Hhi Hlo. rewrite unpack_INT_64. unfold bind, ret.
    rewrite readInt32_be32 by exact Hhi.
    now rewrite readInt32_be32 by exact Hlo.
Qed.

Lemma unpack_accepts_wider_integers_witness :
  unpack ToString_unused new_Unpacker identity 1 [0xca; 0; 0; 0; 1; 0xc0]
  = (Return (VInt (int 1)), [0xc0])
  /\ unpack ToString_unused new_Unpacker identity 1
       [0xcb; 0xff; 0xff; 0xff; 0xff; 0xff; 0xff; 0xff; 0xfe]
     = (Return (VInt (int (-2))), []).
Proof.
  pose proof (unpack_accepts_wider_integers ToString_unused new_Unpacker
                identity 0 1 (-1) (-2) [0xc0]) as (_ & _ & H32 & _).
  pose proof (unpack_accepts_wider_integers ToString_unused new_Unpacker
                identity 0 1 (-1) (-2) []) as (_ & _ & _ & H64).
  split.
  - apply H32. lia.
  - apply H64; lia.
Defined.

(** X5. Doubles, strings and byte arrays come back as they were whatever the
    flags and the hydration hook of the Unpacker: neither integer flag
    touches a double, and byte arrays are decoded unconditionally. *)
Theorem scalars_ignore_flags_and_hook (T : value -> string) (this : Unpacker)
  (h : hook) (fuel : nat) (rest : list Z) :
  (forall bits,
     0 <= bits < 2 ^ 64 ->
     unpack T this h (S fuel) (bytes_of (packFloat bits) ++ rest)
     = (Return (VNumber bits), rest))
  /\ (forall s,
        len (utf8_encode s) < 2 ^ 32 ->
        unpack T this h (S fuel) (bytes_of (packString s) ++ rest)
        = (Return (VString s), rest))
  /\ (forall a,
        len a < 2 ^ 32 -> forallb int8b a = true ->
        unpack T this h (S fuel) (bytes_of (packBytes a) ++ rest)
        = (Return (VBytes a), rest)).
Proof.
  split; [ | split ].
  - intros bits Hb. now apply unpack_packFloat.
  - intros s Hs. now apply unpack_packString.
  - intros a Hn Ha. now apply unpack_packBytes.
Qed.

Lemma scalars_ignore_flags_and_hook_witness :
  unpack ToString_unused (mkUnpacker true true) hydrate_to_null 1
    (bytes_of (packFloat 0x3ff0000000000000) ++ [0xc0])
  = (Return (VNumber 0x3ff0000000000000), [0xc0])
  /\ unpack ToString_unused (mkUnpacker true true) hydrate_to_null 1
       (bytes_of (packString "abc") ++ [0xc0])
     = (Return (VString "abc"), [0xc0])
  /\ unpack ToString_unused (mkUnpacker true true) hydrate_to_null 1
       (bytes_of (packBytes [1; -1; 127; -128]) ++ [0xc0])
     = (Return (VBytes [1; -1; 127; -128]), [0xc0]).
Proof.
  pose proof (scalars_ignore_flags_and_hook ToString_unused
                (mkUnpacker true true) hydrate_to_null 0 [0xc0])
    as (Hf & Hs & Hb).
  split; [ | split ].
  - apply Hf. lia.
  - apply Hs. vm_compute. reflexivity.
  - apply Hb; [ vm_compute; reflexivity | reflexivity ].
Defined.

(** ** Size headers *)

(** X6. For every size below [2^32] the header that [packListHeader],
    [packMapHeader] or [packBytesHeader] writes is read back by [unpack] as
    that size: the decoder goes on to read exactly [n] elements, pairs or
    bytes. *)
Theorem size_headers_read_back (T : value -> string) (this : Unpacker)
  (h : hook) (fuel : nat) (n : Z) (buf : list Z) :
  0 <= n < 2 ^ 32 ->
  unpack T this h (S fuel) (bytes_of (packListHeader n) ++ buf)
  = _unpackListWithSize (unpack T this h fuel) n buf
  /\ unpack T this h (S fuel) (bytes_of (packMapHeader n) ++ buf)
     = _unpackMapWithSize T (unpack T this h fuel) n buf
  /\ unpack T this h (S fuel) (bytes_of (packBytesHeader n) ++ buf)
     = _unpackByteArrayWithSize n buf.
Proof.
  intros Hn. split; [ | split ].
  - rewrite (writes_bytes_of _ _ _ (packListHeader_writes n Hn)).
    now apply unpack_list_header.
  - rewrite (writes_bytes_of _ _ _ (packMapHeader_writes n Hn)).
    now apply unpack_map_header.
  - rewrite (writes_bytes_of _ _ _ (packBytesHeader_writes n Hn)).
    now apply unpack_bytes_header.
Qed.

Lemma size_headers_read_back_witness :
  unpack ToString_unused new_Unpacker identity 2
    (bytes_of (packListHeader 70000) ++ [0xc0])
  = _unpackListWithSize (unpack ToString_unused new_Unpacker identity 1)
      70000 [0xc0].
Proof.
  apply (size_headers_read_back ToString_unused new_Unpacker identity 1
           70000 [0xc0]).
  lia.
Defined.

(** X7. A size of [2^32] or more makes [packListHeader], [packMapHeader]
    and [packBytesHeader] throw the error that names the size, before any
    byte is written.  The size is an integer that the host prints with all
    its digits, so below [2^53]. *)
Theorem oversize_headers_throw (n : Z) (p : Packer) :
  2 ^ 32 <= n < 2 ^ 53 ->
  packListHeader n p
  = (Throw (ProtocolError ("Lists of size " ++ toString10 n
                           ++ " are not supported") None), p)
  /\ packMapHeader n p
     = (Throw (ProtocolError ("Maps of size " ++ toString10 n
                              ++ " are not supported") None), p)
  /\ packBytesHeader n p
     = (Throw (ProtocolError ("Byte arrays of size " ++ toString10 n
                              ++ " are not supported") None), p).
Proof.
  intros Hn. change (2 ^ 32) with 4294967296 in Hn.
  unfold packListHeader, packMapHeader, packBytesHeader.
  replace (n <? 16) with false by (symmetry; apply Z.ltb_ge; lia).
  replace (n <? 256) with false by (symmetry; apply Z.ltb_ge; lia).
  replace (n <? 65536) with false by (symmetry; apply Z.ltb_ge; lia).
  replace (n <? 4294967296) with false by (symmetry; apply Z.ltb_ge; lia).
  repeat split.
Qed.

Lemma oversize_headers_throw_witness :
  packListHeader 4294967296 (new_Packer [0xc0])
  = (Throw (ProtocolError "Lists of size 4294967296 are not supported" None),
     new_Packer [0xc0]).
Proof.
  apply (oversize_headers_throw 4294967296 (new_Packer [0xc0])). lia.
Defined.

(** ** The hydration hook *)

(** X8. What [unpack] returns for a Structure is the value of the hydration
    hook on it, whatever that value is, as long as it is not [null]; the
    fields the hook receives are already decoded, nested Structures
    hydrated. *)
Theorem unpack_returns_hook_value (T : value -> string) (this : Unpacker)
  (h : hook) (fuel : nat) (n signature : Z) (buf b' : list Z)
  (fields : list value) (v : value) :
  0 <= n < 65536 -> 0 <= signature < 256 ->
  repeatM (Z.to_nat n) (unpack T this h fuel) buf = (Return fields, b') ->
  h (VStruct signature fields) = inr v ->
  is_null v = false ->
  unpack T this h (S fuel) (struct_header n ++ signature :: buf)
  = (Return v, b').
Proof.
  intros Hn Hs Hf Hh Hv.
  rewrite unpack_struct_header by exact Hn.
  unfold bind at 1. unfold _unpackStructWithSize, bind.
  rewrite readUInt8_byte by exact Hs.
  rewrite Hf, Hh. unfold ret. now rewrite Hv.
Qed.

Lemma unpack_returns_hook_value_witness :
  unpack ToString_unused new_Unpacker unwrap_single 3
    [0xb1; 0x4e; 0xb1; 0x4e; 0x2a; 0xc0]
  = (Return (VInt (int 42)), [0xc0]).
Proof.
  apply (unpack_returns_hook_value ToString_unused new_Unpacker unwrap_single
           2 1 0x4e [0xb1; 0x4e; 0x2a; 0xc0] [0xc0] [VInt (int 42)]
           (VInt (int 42))); first [ lia | reflexivity ].
Defined.

(** ** [unpackInteger] *)

Lemma unpackInteger_as_unpack (T : value -> string) (h : hook) (fuel : nat)
  (m : Z) (buf : list Z) :
  0 <= m < 256 -> kind_of m = KNumber -> m <> FLOAT_64 ->
  unpackInteger (m :: buf) = unpack T new_Unpacker h (S fuel) (m :: buf).
Proof.
  intros Hm. revert buf.
  enumerate m 0 256%nat; intros buf K F;
    first [ discriminate K
          | exfalso; apply F; reflexivity
          | unfold unpackInteger; reduce_unpack; open_binds;
            repeat step; reflexivity ].
Qed.

Lemma unpackInteger_rejects (m : Z) (buf : list Z) :
  0 <= m < 256 -> kind_of m <> KNumber \/ m = FLOAT_64 ->
  unpackInteger (m :: buf)
  = (Throw (ProtocolError ("Unable to unpack integer value with marker "
                           ++ toString16 m) None), buf).
Proof.
  intros Hm. revert buf.
  enumerate m 0 256%nat; intros buf [K | F];
    first [ reflexivity
          | exfalso; apply K; reflexivity
          | discriminate F ].
Qed.

Lemma tiny_marker_kind (v : Z) :
  -16 <= v < 128 ->
  0 <= v mod 256 < 256
  /\ kind_of (v mod 256) = KNumber /\ v mod 256 <> FLOAT_64.
Proof.
  intros Hv.
  enumerate v (-16) 144%nat;
    (split; [ vm_compute; split; [ discriminate | reflexivity ] | ]);
    (split; [ reflexivity | discriminate ]).
Qed.

Lemma packInteger_marker (i : Integer) :
  Integer_wf i ->
  exists m tail,
    bytes_of (packInteger i) = m :: tail
    /\ 0 <= m < 256 /\ kind_of m = KNumber /\ m <> FLOAT_64.
Proof.
  intros Hwf.
  destruct (packInteger_by_range i (new_Packer []) Hwf)
    as (H1 & H2 & H3 & H4 & H5).
  unfold bytes_of.
  destruct (Z_lt_le_dec (toZ i) (- 2 ^ 31)) as [C | C];
    [ | destruct (Z_lt_le_dec (toZ i) (- 2 ^ 15)) as [C1 | C1];
        [ | destruct (Z_lt_le_dec (toZ i) (-128)) as [C2 | C2];
            [ | destruct (Z_lt_le_dec (toZ i) (-16)) as [C3 | C3];
                [ | destruct (Z_lt_le_dec (toZ i) 128) as [C4 | C4];
                    [ | destruct (Z_lt_le_dec (toZ i) (2 ^ 15))
                          as [C5 | C5];
                        [ | destruct (Z_lt_le_dec (toZ i) (2 ^ 31))
                              as [C6 | C6] ] ] ] ] ] ].
  all: first [ rewrite H1 by lia | rewrite H2 by lia | rewrite H3 by lia
             | rewrite H4 by lia | rewrite H5 by lia ];
    cbn [snd wrote _ch new_Packer app].
  all: try (eexists; eexists; split; [ reflexivity | ];
            split; [ lia | split; [ reflexivity | discriminate ] ]).
  eexists; eexists; split; [ reflexivity | ].
  apply tiny_marker_kind. lia.
Qed.

(** X9. [unpackInteger] gives back exactly the I64 that [packInteger]
    wrote and leaves the bytes that follow; on a marker that is not an
    integer marker, FLOAT_64 included, it throws the error that carries the
    marker in hexadecimal, having read the marker only. *)
Theorem unpackInteger_reads_integers_only (i : Integer) (m : Z)
  (rest : list Z) :
  (Integer_wf i ->
   unpackInteger (bytes_of (packInteger i) ++ rest) = (Return (VInt i), rest))
  /\ (0 <= m < 256 -> kind_of m <> KNumber \/ m = FLOAT_64 ->
      unpackInteger (m :: rest)
      = (Throw (ProtocolError ("Unable to unpack integer value with marker "
                               ++ toString16 m) None), rest)).
Proof.
  split.
  - intros Hwf.
    destruct (packInteger_marker i Hwf) as (k & tail & Hb & Hk & Hn & Hf).
    pose proof (unpack_packInteger ToString_unused new_Unpacker identity 0
                  i rest Hwf) as Hu.
    rewrite Hb in *. cbn [app] in *.
    rewrite (unpackInteger_as_unpack ToString_unused identity 0 k _ Hk Hn Hf).
    exact Hu.
  - intros Hm Hk. now apply unpackInteger_rejects.
Qed.

Lemma unpackInteger_reads_integers_only_witness :
  unpackInteger (bytes_of (packInteger (mkInteger (-17) (-1))) ++ [0xc0])
  = (Return (VInt (mkInteger (-17) (-1))), [0xc0])
  /\ unpackInteger [0xc1; 0; 0; 0; 0; 0; 0; 0; 0]
     = (Throw (ProtocolError "Unable to unpack integer value with marker c1"
                 None), [0; 0; 0; 0; 0; 0; 0; 0]).
Proof.
  split.
  - apply (proj1 (unpackInteger_reads_integers_only
                    (mkInteger (-17) (-1)) 0 [0xc0])).
    unfold Integer_wf, int32_range. simpl. lia.
  - apply (proj2 (unpackInteger_reads_integers_only
                    (mkInteger 0 0) 0xc1 [0; 0; 0; 0; 0; 0; 0; 0]));
      [ lia | right; reflexivity ].
Defined.

(** ** Iterables and values that cannot be packed *)

(** X10. An iterable that is not an array is packed as the array of its
    items, the hook being applied once more to that array.  When the
    conversion to an array throws, [packable] itself throws at once, with
    the message of that exception and the iterable in its own message, and
    nothing is written: unlike a hook failure this one is not deferred to
    the closure. *)
Theorem packable_iterable (fuel : nat) (x : value) (h : hook) (repr : string)
  (items : list value) (p : Packer) :
  (forall e,
     h x = inr (VIterable repr (Some e) items) ->
     packable (S fuel) x h p
     = (Throw (ProtocolError ("Cannot pack given iterable, "
                              ++ exn_message e ++ ": " ++ repr) None), p))
  /\ (forall c,
        h x = inr (VIterable repr None items) ->
        packable fuel (VArray items) h p = (Return c, p) ->
        packable (S fuel) x h p = (Return c, p))
  /\ pack (S (S fuel)) (VIterable repr None items) identity p
     = pack (S fuel) (VArray items) identity p.
Proof.
  split; [ | split ].
  - intros e Hx. cbn [packable]. rewrite Hx. reflexivity.
  - intros c Hx Hc. cbn [packable]. rewrite Hx.
    unfold try_catch, bind, Array_from, ret. now rewrite Hc.
  - reflexivity.
Qed.

Lemma packable_iterable_witness :
  packable 1 failing_iterable identity (new_Packer [0xc0])
  = (Throw (ProtocolError
              "Cannot pack given iterable, boom: [object Generator]" None),
     new_Packer [0xc0])
  /\ packable 2 (VIterable "[object Set]" None [VNull]) identity
       (new_Packer [])
     = packable 1 (VArray [VNull]) identity (new_Packer []).
Proof.
  split.
  - apply (proj1 (packable_iterable 0 failing_iterable identity
                    "[object Generator]" [] (new_Packer [0xc0]))
             (Exception "boom")).
    reflexivity.
  - pose proof (packable_iterable 1 (VIterable "[object Set]" None [VNull])
                  identity "[object Set]" [VNull] (new_Packer []))
      as (_ & H & _).
    rewrite (H _ eq_refl eq_refl). reflexivity.
Defined.

Lemma mapM_app {A B : Type} (f : A -> M B) (xs ys : list A) (p : Packer) :
  mapM f (xs ++ ys) p
  = (a <- mapM f xs ;; b <- mapM f ys ;; ret (a ++ b)) p.
Proof.
  revert p. induction xs as [ | x xs IH ]; intros p.
  - cbn [app mapM]. unfold bind, ret.
    destruct (mapM f ys p) as [[b | e | | ] q]; reflexivity.
  - cbn [app mapM]. unfold bind, ret in *.
    destruct (f x p) as [[y | e | | ] q]; try reflexivity.
    rewrite IH.
    destruct (mapM f xs q) as [[a | e | | ] q1]; try reflexivity.
    destruct (mapM f ys q1) as [[b | e | | ] q2]; reflexivity.
Qed.

Lemma carried_fields_closures (fuel : nat) (fields : list value) :
  forallb (carried 65536 true) fields = true ->
  (list_max (map depth fields) < fuel)%nat ->
  exists cs : list closure,
    (forall p,
       mapM (fun f => packable fuel f identity) fields p = (Return cs, p))
    /\ List.length cs = List.length fields
    /\ (forall q, supports_bytes q ->
                  forEach cs (fun c => c) q
                  = (Return tt, wrote q (flat_map encode fields))).
Proof.
  intros Hc Hd. apply mapM_closures.
  rewrite forallb_forall in Hc. apply Forall_forall. intros x Hx.
  pose proof (depth_child fields x Hx).
  apply (packable_encode 65536 ltac:(lia) x (Hc x Hx)). lia.
Qed.

(** X11. A value that is none of the packable kinds gives a closure that
    throws the error with the ProtocolError code and writes nothing, when
    it is [undefined] or a function.  For a Symbol no closure is made:
    [packable] itself throws the host's TypeError, because the message
    cannot be built.  [undefined] becomes [null] only as a list element: as
    a field of a Structure it is packed as it is, so the Structure's header
    and the fields before it are written and then the closure throws. *)
Theorem unpackable_values_throw (fuel : nat) (h : hook) (p : Packer) :
  (forall x,
     h x = inr VUndefined ->
     exists c : closure,
       packable (S fuel) x h p = (Return c, p)
       /\ forall q,
            c q = (Throw (ProtocolError
                            "Unable to pack the given value: undefined"
                            (Some PROTOCOL_ERROR)), q))
  /\ (forall x repr,
        h x = inr (VOther repr) ->
        exists c : closure,
          packable (S fuel) x h p = (Return c, p)
          /\ forall q,
               c q = (Throw (ProtocolError
                               ("Unable to pack the given value: " ++ repr)
                               (Some PROTOCOL_ERROR)), q))
  /\ (forall x,
        h x = inr VSymbol ->
        packable (S fuel) x h p
        = (Throw (TypeError "Cannot convert a Symbol value to a string"), p))
  /\ (forall signature pre post ch,
        0 <= signature < 256 ->
        forallb (carried 65536 true) pre = true ->
        forallb (carried 65536 true) post = true ->
        len (pre ++ VUndefined :: post) < 65536 ->
        (list_max (map depth (pre ++ post)) < S fuel)%nat ->
        pack (S (S fuel)) (VStruct signature (pre ++ VUndefined :: post))
          identity (new_Packer ch)
        = (Throw (ProtocolError "Unable to pack the given value: undefined"
                    (Some PROTOCOL_ERROR)),
           new_Packer
             (ch ++ bytes_of (packStructHeader
                                (len (pre ++ VUndefined :: post)) signature)
                 ++ flat_map encode pre))).
Proof.
  split; [ | split; [ | split ] ].
  - intros x Hx. eexists. cbn [packable]. rewrite Hx.
    split; [ reflexivity | intros q; reflexivity ].
  - intros x repr Hx. eexists. cbn [packable]. rewrite Hx.
    split; [ reflexivity | intros q; reflexivity ].
  - intros x Hx. cbn [packable]. rewrite Hx. reflexivity.
  - intros signature pre post ch _ Hpre Hpost Hlen Hdepth.
    rewrite map_app, list_max_app in Hdepth.
    destruct (carried_fields_closures (S fuel) pre Hpre ltac:(lia))
      as (cs1 & Hm1 & Hl1 & Hw1).
    destruct (carried_fields_closures (S fuel) post Hpost ltac:(lia))
      as (cs2 & Hm2 & Hl2 & Hw2).
    unfold pack, bind.
    change (packable (S (S fuel)) (VStruct signature (pre ++ VUndefined :: post))
              identity (new_Packer ch))
      with ((packableFields <-
               mapM (fun f => packable (S fuel) f identity)
                 (pre ++ VUndefined :: post) ;;
             ret (packStruct signature packableFields)) (new_Packer ch)).
    unfold bind at 1. rewrite mapM_app. unfold bind at 1. rewrite Hm1.
    unfold bind at 1. cbn [mapM]. unfold bind at 1.
    change (packable (S fuel) VUndefined identity (new_Packer ch))
      with (Return (_nonPackableValue
                      "Unable to pack the given value: undefined"),
            new_Packer ch).
    unfold bind at 1. rewrite Hm2. unfold ret at 1 2 3.
    unfold packStruct, bind.
    assert (Hn : len (cs1 ++ _nonPackableValue
                        "Unable to pack the given value: undefined" :: cs2)
                 = len (pre ++ VUndefined :: post)).
    { unfold len. rewrite !length_app. cbn [List.length]. lia. }
    rewrite Hn.
    rewrite packStructHeader_writes by (unfold len in *; lia).
    rewrite forEach_app. unfold bind at 1.
    rewrite Hw1 by reflexivity.
    cbn [forEach]. unfold bind at 1.
    rewrite wrote_wrote. reflexivity.
Qed.

Lemma unpackable_values_throw_witness :
  (exists c : closure,
     packable 1 VUndefined identity (new_Packer [0xc0])
     = (Return c, new_Packer [0xc0])
     /\ forall q,
          c q = (Throw (ProtocolError
                          "Unable to pack the given value: undefined"
                          (Some PROTOCOL_ERROR)), q))
  /\ packable 1 VSymbol identity (new_Packer [0xc0])
     = (Throw (TypeError "Cannot convert a Symbol value to a string"),
        new_Packer [0xc0])
  /\ pack 2 (VStruct 0x4e [VBool true; VUndefined; VNull]) identity
       (new_Packer [])
     = (Throw (ProtocolError "Unable to pack the given value: undefined"
                 (Some PROTOCOL_ERROR)), new_Packer [0xb3; 0x4e; 0xc3]).
Proof.
  pose proof (unpackable_values_throw 0 identity (new_Packer [0xc0]))
    as (H1 & _ & H3 & _).
  pose proof (unpackable_values_throw 0 identity (new_Packer []))
    as (_ & _ & _ & H4).
  split; [ | split ].
  - apply H1. reflexivity.
  - apply H3. reflexivity.
  - apply (H4 0x4e [VBool true] [VNull] []);
      first [ reflexivity | simpl; lia | lia ].
Defined.

(** ** The Packer only appends *)

Lemma appends_ret {A : Type} (a : A) : appends (ret a).
Proof. intros p. exists []. cbn. now rewrite wrote_nil. Qed.

Lemma appends_throw {A : Type} (e : exn) : appends (@throw Packer A e).
Proof. intros p. exists []. cbn. now rewrite wrote_nil. Qed.

Lemma appends_emit (bytes : list Z) : appends (emit bytes).
Proof. intros p. exists bytes. reflexivity. Qed.

Lemma appends_bind {A B : Type} (m : M A) (k : A -> M B) :
  appends m -> (forall a, appends (k a)) -> appends (bind m k).
Proof.
  intros Hm Hk p. unfold bind.
  destruct (Hm p) as [bs Hbs].
  destruct (m p) as [[a | e | | ] q]; cbn [snd] in *; subst q.
  - destruct (Hk a (wrote p bs)) as [bs' Hbs'].
    exists (bs ++ bs'). now rewrite Hbs', wrote_wrote.
  - now exists bs.
  - now exists bs.
  - now exists bs.
Qed.

Lemma appends_forEach {A : Type} (xs : list A) (body : A -> M unit) :
  Forall (fun x => appends (body x)) xs -> appends (forEach xs body).
Proof.
  induction 1 as [ | x xs Hx _ IH ]; cbn [forEach].
  - apply appends_ret.
  - apply appends_bind; [ exact Hx | intros _; exact IH ].
Qed.

Ltac appends_steps :=
  repeat first
    [ apply appends_ret
    | apply appends_throw
    | apply appends_emit
    | apply appends_bind; [ | intros ? ]
    | match goal with
      | |- appends (if ?c then _ else _) => destruct c
      end ].

Lemma appends_packInteger (i : Integer) : appends (packInteger i).
Proof.
  unfold packInteger, writeUInt8, writeInt8, writeInt16, writeInt32.
  appends_steps.
Qed.

Lemma appends_packString (s : string) : appends (packString s).
Proof. unfold packString, writeUInt8, writeBytes. appends_steps. Qed.

Lemma appends_packListHeader (n : Z) : appends (packListHeader n).
Proof. unfold packListHeader, writeUInt8. appends_steps. Qed.

Lemma appends_packMapHeader (n : Z) : appends (packMapHeader n).
Proof. unfold packMapHeader, writeUInt8. appends_steps. Qed.

Lemma appends_packStructHeader (n signature : Z) :
  appends (packStructHeader n signature).
Proof. unfold packStructHeader, writeUInt8. appends_steps. Qed.

Lemma appends_packBytes (a : list Z) : appends (packBytes a).
Proof.
  intros p. unfold packBytes.
  destruct (_byteArraysSupported p).
  - apply appends_bind.
    + unfold packBytesHeader, writeUInt8. appends_steps.
    + intros _. apply appends_forEach. apply Forall_forall.
      intros b _. apply appends_emit.
  - apply appends_throw.
Qed.

Lemma mapM_Forall {A B : Type} (f : A -> M B) (P : B -> Prop) (xs : list A) :
  (forall x p y q, f x p = (Return y, q) -> P y) ->
  forall p ys q, mapM f xs p = (Return ys, q) -> Forall P ys.
Proof.
  intros Hf. induction xs as [ | x xs IH ]; intros p ys q H.
  - cbn in H. injection H as <- _. constructor.
  - cbn [mapM] in H. unfold bind, ret in H.
    destruct (f x p) as [[y | e | | ] p1] eqn:Hy; try discriminate H.
    destruct (mapM f xs p1) as [[ys' | e | | ] p2] eqn:Hys; try discriminate H.
    injection H as <- _.
    constructor; [ now apply (Hf x p y p1) | now apply (IH p1 ys' p2) ].
Qed.

Lemma appends_run_packable (fuel : nat) (x : value) (h : hook) :
  (forall p c q, packable fuel x h p = (Return c, q) -> appends c) ->
  appends (c <- packable fuel x h ;; c).
Proof.
  intros Hc p. unfold bind.
  pose proof (packable_frame fuel x h p) as Hf.
  destruct (packable fuel x h p) as [[c | e | | ] q] eqn:E;
    cbn [snd] in Hf; subst q.
  - apply (Hc p c p E).
  - exists []. cbn. now rewrite wrote_nil.
  - exists []. cbn. now rewrite wrote_nil.
  - exists []. cbn. now rewrite wrote_nil.
Qed.

Lemma packable_closure_appends (fuel : nat) :
  forall x h p c q, packable fuel x h p = (Return c, q) -> appends c.
Proof.
  induction fuel as [ | fuel IH ]; intros x h p c q H.
  - discriminate H.
  - cbn [packable] in H.
    destruct (h x) as [ex | x'].
    { injection H as <- _. apply appends_throw. }
    destruct x' as [ | | [ | ] | bits | s | z | i | a | l
                   | repr failure items | signature fields | props | repr | ];
      try (injection H as <- _).
    + apply appends_throw.
    + apply appends_emit.
    + apply appends_emit.
    + apply appends_emit.
    + unfold packFloat, writeUInt8, writeFloat64. appends_steps.
    + apply appends_packString.
    + apply appends_packInteger.
    + apply appends_packInteger.
    + apply appends_packBytes.
    + apply appends_bind; [ apply appends_packListHeader | intros _ ].
      apply appends_forEach. apply Forall_forall. intros xi _.
      apply appends_run_packable. apply IH.
    + unfold try_catch, bind, Array_from in H.
      destruct failure as [e | ]; [ discriminate H | ].
      unfold ret in H.
      destruct (packable fuel (VArray items) h p) as [[c' | e | | ] q'] eqn:E;
        try discriminate H.
      injection H as <- _. now apply (IH _ _ _ _ _ E).
    + unfold bind in H.
      destruct (mapM (fun f => packable fuel f h) fields p)
        as [[cs | e | | ] q'] eqn:E; try discriminate H.
      injection H as <- _.
      unfold packStruct.
      apply appends_bind; [ apply appends_packStructHeader | intros _ ].
      apply appends_forEach.
      apply (mapM_Forall (fun f => packable fuel f h) appends fields)
        with (p := p) (q := q'); [ | exact E ].
      intros y p0 c0 q0 Hy. now apply (IH _ _ _ _ _ Hy).
    + cbv zeta.
      apply appends_bind; [ apply appends_packMapHeader | intros _ ].
      apply appends_forEach. apply Forall_forall. intros kv _.
      destruct (is_undefined (snd kv)); [ apply appends_ret | ].
      apply appends_bind; [ apply appends_packString | intros _ ].
      apply appends_run_packable. apply IH.
    + apply appends_throw.
    + discriminate H.
Qed.

(** X12. Packing never touches what the channel already holds: whatever
    the value, the hook and the outcome (return, throw), the bytes written
    before are still there, in place, followed by the new ones, and the
    byte-array flag is as it was. *)
Theorem pack_only_appends (fuel : nat) (x : value) (h : hook) (p : Packer) :
  exists bytes,
    _ch (snd (pack fuel x h p)) = _ch p ++ bytes
    /\ _byteArraysSupported (snd (pack fuel x h p)) = _byteArraysSupported p.
Proof.
  destruct (appends_run_packable fuel x h
              (packable_closure_appends fuel x h) p) as [bs Hbs].
  exists bs. unfold pack. rewrite Hbs. split; reflexivity.
Qed.

(** ** [unpack] terminates and consumes *)

Lemma rw_ret {A : Type} (n : nat) (a : A) : reads_within n (ret a).
Proof.
  intros buf _. split; [ discriminate | ].
  intros a' b' H. injection H as _ <-. lia.
Qed.

Lemma rw_throw {A : Type} (n : nat) (e : exn) :
  reads_within n (@throw (list Z) A e).
Proof. intros buf _. split; [ discriminate | intros a b' H; discriminate H ]. Qed.

Lemma rw_readUInt8 (n : nat) : reads_within n readUInt8.
Proof.
  intros [ | b buf ] _; cbn; (split; [ discriminate | ]);
    intros a b' H; [ discriminate H | ].
  injection H as _ <-. lia.
Qed.

Lemma rw_bind {A B : Type} (n : nat) (m : R A) (k : A -> R B) :
  reads_within n m -> (forall a, reads_within n (k a)) ->
  reads_within n (bind m k).
Proof.
  intros Hm Hk buf Hbuf. unfold bind.
  destruct (Hm buf Hbuf) as [Hfuel Hlen].
  destruct (m buf) as [[a | e | | ] b1] eqn:E; cbn [fst] in *.
  - specialize (Hlen a b1 eq_refl).
    destruct (Hk a b1 ltac:(lia)) as [Hfuel' Hlen'].
    split; [ exact Hfuel' | ].
    intros a' b' H. specialize (Hlen' a' b' H). lia.
  - split; [ discriminate | intros a b' H; discriminate H ].
  - contradiction.
  - split; [ discriminate | intros a b' H; discriminate H ].
Qed.

Lemma rw_host {A : Type} (n : nat) (result : option A) :
  reads_within n (host result).
Proof.
  destruct result as [ a | ]; [ apply rw_ret | ].
  intros buf _. split; [ discriminate | intros a b' H; discriminate H ].
Qed.

Lemma rw_repeatM {A : Type} (n k : nat) (body : R A) :
  reads_within n body -> reads_within n (repeatM k body).
Proof.
  intros Hb. induction k as [ | k IH ]; cbn [repeatM].
  - apply rw_ret.
  - apply rw_bind; [ exact Hb | intros x ].
    apply rw_bind; [ exact IH | intros xs; apply rw_ret ].
Qed.

Lemma rw_mapLoop (T : value -> string) (n k : nat) (self : R value) :
  reads_within n self ->
  forall acc, reads_within n (_unpackMapLoop T self k acc).
Proof.
  intros Hs. induction k as [ | k IH ]; intros acc; cbn [_unpackMapLoop].
  - apply rw_ret.
  - apply rw_bind; [ exact Hs | intros key ].
    apply rw_bind; [ exact Hs | intros v ].
    apply rw_bind; [ apply rw_host | intros name ].
    apply rw_bind; [ apply rw_host | intros val; apply IH ].
Qed.

Ltac rw_steps :=
  repeat first
    [ apply rw_ret
    | apply rw_throw
    | apply rw_readUInt8
    | apply rw_repeatM
    | apply rw_mapLoop
    | assumption
    | apply rw_bind; [ | intros ? ]
    | match goal with
      | |- reads_within _ (if ?c then _ else _) => destruct c
      | |- reads_within _ (match ?v with _ => _ end) => destruct v
      end ].

Lemma unpack_body_reads_within (T : value -> string) (this : Unpacker)
  (h : hook) (n fuel : nat) :
  reads_within n (unpack T this h fuel) ->
  forall b rest,
    (List.length rest <= n)%nat ->
    fst (unpack T this h (S fuel) (b :: rest)) <> NoFuel
    /\ forall a b', unpack T this h (S fuel) (b :: rest) = (Return a, b') ->
                    (List.length b' <= List.length rest)%nat.
Proof.
  intros Hself b rest Hrest.
  remember (unpack T this h (S fuel) (b :: rest)) as u eqn:Eu.
  cbn [unpack] in Eu. unfold bind at 1 in Eu. cbn [readUInt8] in Eu.
  cbv zeta in Eu.
  match type of Eu with
  | u = ?f rest => assert (H : reads_within n f)
  end.
  { unfold _unpackNumberOrInteger, _unpackInteger, _unpackString,
      _unpackList, _unpackByteArray, _unpackMap, _unpackStruct,
      _unpackListWithSize, _unpackByteArrayWithSize, _unpackMapWithSize,
      _unpackStructWithSize, utf8_decode, readFloat64, readInt32, readInt16,
      readInt8, readUInt32, readUInt16.
    rw_steps. }
  rewrite Eu. exact (H rest Hrest).
Qed.

Lemma unpack_consumes (T : value -> string) (this : Unpacker) (h : hook) :
  forall n buf,
    (List.length buf <= n)%nat ->
    fst (unpack T this h (S n) buf) <> NoFuel
    /\ forall a b', unpack T this h (S n) buf = (Return a, b') ->
                    (List.length b' < List.length buf)%nat.
Proof.
  induction n as [ | n IH ]; intros buf Hbuf.
  - destruct buf as [ | b buf ]; [ | cbn in Hbuf; lia ].
    cbn. split; [ discriminate | intros a b' H; discriminate H ].
  - destruct buf as [ | b rest ].
    + cbn. split; [ discriminate | intros a b' H; discriminate H ].
    + cbn [List.length] in Hbuf.
      assert (Hself : reads_within n (unpack T this h (S n))).
      { intros buf' Hbuf'. destruct (IH buf' Hbuf') as [H1 H2].
        split; [ exact H1 | ].
        intros a b' H. specialize (H2 a b' H). lia. }
      destruct (unpack_body_reads_within T this h n (S n) Hself b rest
                  ltac:(lia)) as [H1 H2].
      split; [ exact H1 | ].
      intros a b' H. specialize (H2 a b' H). cbn [List.length]. lia.
Qed.

Lemma repeatM_consumes {A : Type} (m : nat) (body : R A) (k : nat) :
  (forall buf a b',
     (List.length buf <= m)%nat -> body buf = (Return a, b') ->
     (List.length b' < List.length buf)%nat) ->
  forall buf l b',
    (List.length buf <= m)%nat -> repeatM k body buf = (Return l, b') ->
    (k + List.length b' <= List.length buf)%nat.
Proof.
  intros Hbody. induction k as [ | k IH ]; intros buf l b' Hbuf H.
  - cbn in H. injection H as _ <-. lia.
  - cbn [repeatM] in H. unfold bind, ret in H.
    destruct (body buf) as [[a | e | | ] b1] eqn:E1; try discriminate H.
    pose proof (Hbody buf a b1 Hbuf E1) as H1.
    destruct (repeatM k body b1) as [[l' | e | | ] b2] eqn:E2;
      try discriminate H.
    injection H as _ <-.
    pose proof (IH b1 l' b2 ltac:(lia) E2). lia.
Qed.

Lemma truncated_list (T : value -> string) (this : Unpacker) (h : hook)
  (n : Z) (rest : list Z) (v : value) (b' : list Z) :
  Z.of_nat (List.length rest) < n < 2 ^ 32 ->
  Unpacker_unpack T this h
    (size_header TINY_LIST LIST_8 LIST_16 LIST_32 n ++ rest)
  <> (Return v, b').
Proof.
  intros Hn H. unfold Unpacker_unpack in H.
  rewrite unpack_list_header in H by lia.
  pose proof (size_header_nonempty TINY_LIST LIST_8 LIST_16 LIST_32 n) as Hh.
  rewrite length_app in H.
  set (hdr := List.length (size_header TINY_LIST LIST_8 LIST_16 LIST_32 n))
    in *.
  replace (hdr + List.length rest)%nat
    with (S (hdr - 1 + List.length rest)) in H by lia.
  unfold _unpackListWithSize, bind, ret in H.
  destruct (repeatM (Z.to_nat n) _ rest) as [[l | e | | ] b] eqn:E;
    try discriminate H.
  apply (repeatM_consumes (hdr - 1 + List.length rest)) in E; [ lia | | lia ].
  intros buf a b1 Hbuf Hr.
  exact (proj2 (unpack_consumes T this h _ buf Hbuf) a b1 Hr).
Qed.

(** X13. [unpack] needs no more nested calls than the buffer has bytes,
    whatever the bytes, the flags and the hook: the bound
    [S (length buffer)] of [Unpacker_unpack] is never exhausted.  When
    [unpack] returns a value it has read at least one byte.  So a list
    whose header promises more elements than bytes follow is never
    returned. *)
Theorem unpack_ends_and_consumes (T : value -> string) (this : Unpacker)
  (h : hook) (buf : list Z) :
  fst (Unpacker_unpack T this h buf) <> NoFuel
  /\ (forall v rest,
        Unpacker_unpack T this h buf = (Return v, rest) ->
        (List.length rest < List.length buf)%nat)
  /\ (forall n v rest,
        Z.of_nat (List.length buf) < n < 2 ^ 32 ->
        Unpacker_unpack T this h
          (size_header TINY_LIST LIST_8 LIST_16 LIST_32 n ++ buf)
        <> (Return v, rest)).
Proof.
  split; [ | split ].
  - unfold Unpacker_unpack. apply unpack_consumes. lia.
  - unfold Unpacker_unpack. apply unpack_consumes. lia.
  - intros n v rest Hn. now apply truncated_list.
Qed.

Lemma unpack_ends_and_consumes_witness :
  Unpacker_unpack ToString_unused new_Unpacker identity [0x93; 0xc0; 0xc3]
  <> (Return (VArray [VNull; VBool true; VNull]), []).
Proof.
  apply (proj2 (proj2 (unpack_ends_and_consumes ToString_unused new_Unpacker
                         identity [0xc0; 0xc3]))
           3 (VArray [VNull; VBool true; VNull]) []).
  simpl. lia.
Defined.

(** ** Map keys on decode *)

Lemma unpackMapLoop_step (T : value -> string) (self : R value) (n : nat)
  (val val' : object) (key v : value) (name : string) (buf b1 b2 : list Z) :
  self buf = (Return key, b1) ->
  self b1 = (Return v, b2) ->
  property_key T key = Some name ->
  obj_set val name v = Some val' ->
  _unpackMapLoop T self (S n) val buf = _unpackMapLoop T self n val' b2.
Proof.
  intros Hkey Hv Hname Hset. cbn [_unpackMapLoop]. unfold bind.
  rewrite Hkey, Hv, Hname. cbn [host]. unfold ret. rewrite Hset.
  reflexivity.
Qed.

Lemma obj_set_first (key : string) (v : value) :
  String.eqb key "__proto__" = false ->
  obj_set new_object key v = Some (mkObject [(key, v)] false).
Proof.
  intros Hk. unfold obj_set, new_object, add_own.
  cbn [own null_prototype has_own existsb]. rewrite Hk. cbn [andb].
  destruct (array_index key); reflexivity.
Qed.

Lemma obj_set_again (key : string) (v w : value) (np : bool) :
  obj_set (mkObject [(key, v)] np) key w = Some (mkObject [(key, w)] np).
Proof.
  unfold obj_set. cbn [own null_prototype has_own existsb fst replace_own].
  now rewrite String.eqb_refl.
Qed.


(** X14. A map on the wire that carries the same key twice is accepted: the
    decoded object has that key once, with the value that came last.  The
    key [__proto__] is left out: it makes no entry at all. *)
Theorem duplicate_key_last_wins (T : value -> string) (k : string)
  (v1 v2 : value) (fuel : nat) (rest : list Z) :
  carried 256 true (VString k) = true ->
  k <> "__proto__"%string ->
  carried 256 true v1 = true -> carried 256 true v2 = true ->
  (depth v1 < fuel)%nat -> (depth v2 < fuel)%nat ->
  unpack T new_Unpacker identity (S fuel)
    (0xa2 :: encode (VString k) ++ encode v1
          ++ encode (VString k) ++ encode v2 ++ rest)
  = (Return (VObject [(k, normalize v2)]), rest).
Proof.
  intros Hk Hproto H1 H2 Hd1 Hd2.
  apply String.eqb_neq in Hproto.
  change (0xa2 :: ?buf)
    with (size_header TINY_MAP MAP_8 MAP_16 MAP_32 2 ++ buf).
  rewrite unpack_map_header by lia.
  unfold _unpackMapWithSize. change (Z.to_nat 2) with 2%nat.
  unfold bind at 1.
  rewrite (unpackMapLoop_step T _ 1 new_object _ _ _ _ _ _ _
             (unpack_encode T (VString k) Hk fuel ltac:(simpl; lia) _)
             (unpack_encode T v1 H1 fuel Hd1 _)
             eq_refl (obj_set_first k (normalize v1) Hproto)).
  rewrite (unpackMapLoop_step T _ 0 _ _ _ _ _ _ _ _
             (unpack_encode T (VString k) Hk fuel ltac:(simpl; lia) _)
             (unpack_encode T v2 H2 fuel Hd2 _)
             eq_refl (obj_set_again k (normalize v1) (normalize v2) false)).
  reflexivity.
Qed.

Lemma duplicate_key_last_wins_witness :
  unpack ToString_unused new_Unpacker identity 2
    (0xa2 :: encode (VString "k") ++ encode (VInt (int 1))
          ++ encode (VString "k") ++ encode VNull ++ [0xc3])
  = (Return (VObject [("k"%string, VNull)]), [0xc3]).
Proof.
  apply (duplicate_key_last_wins ToString_unused "k" (VInt (int 1)) VNull 1
           [0xc3]);
    first [ reflexivity | simpl; lia | intros E; discriminate E ].
Defined.

(** X15. A map key is decoded like any value and is not required to be a
    string: a key that is a primitive, an [Integer] or a byte array is
    turned into a property name by the host and decoding goes on. *)
Theorem map_key_of_any_kind (T : value -> string) (key v : value)
  (name : string) (fuel : nat) (rest : list Z) :
  carried 256 true key = true -> carried 256 true v = true ->
  (depth v < fuel)%nat ->
  property_key T key = Some name ->
  name <> "__proto__"%string ->
  unpack T new_Unpacker identity (S fuel)
    (0xa1 :: encode key ++ encode v ++ rest)
  = (Return (VObject [(name, normalize v)]), rest).
Proof.
  intros Hk Hv Hdv Hname Hproto.
  apply String.eqb_neq in Hproto.
  assert (Hkey : normalize key = key /\ depth key = O)
    by (destruct key; try discriminate Hname; split; reflexivity).
  destruct Hkey as [Hnk Hdk0].
  assert (Hdk : (depth key < fuel)%nat) by lia.
  rewrite <- Hnk in Hname.
  change (0xa1 :: ?buf)
    with (size_header TINY_MAP MAP_8 MAP_16 MAP_32 1 ++ buf).
  rewrite unpack_map_header by lia.
  unfold _unpackMapWithSize. change (Z.to_nat 1) with 1%nat.
  unfold bind at 1.
  rewrite (unpackMapLoop_step T _ 0 new_object _ _ _ _ _ _ _
             (unpack_encode T key Hk fuel Hdk _)
             (unpack_encode T v Hv fuel Hdv _)
             Hname (obj_set_first name (normalize v) Hproto)).
  reflexivity.
Qed.

Lemma map_key_of_any_kind_witness :
  unpack (fun _ => "true"%string) new_Unpacker identity 2
    (0xa1 :: encode (VBool true) ++ encode (VInt (int 7)) ++ [])
  = (Return (VObject [("true"%string, VInt (int 7))]), []).
Proof.
  apply (map_key_of_any_kind (fun _ => "true"%string) (VBool true)
           (VInt (int 7)) "true" 1 []);
    first [ reflexivity | simpl; lia | intros E; discriminate E ].
Defined.



(** X18. The decoded object lists its keys as the host does, not as the
    wire had them: a key that is an array index comes before a key that is
    a greater index or no index, though it was read after it. *)
Theorem index_keys_listed_first (T : value -> string) (k1 k2 : string)
  (v1 v2 : value) (i : Z) (fuel : nat) (rest : list Z) :
  carried 256 true (VString k1) = true ->
  carried 256 true (VString k2) = true ->
  carried 256 true v1 = true -> carried 256 true v2 = true ->
  (depth v1 < fuel)%nat -> (depth v2 < fuel)%nat ->
  k1 <> "__proto__"%string ->
  array_index k2 = Some i ->
  match array_index k1 with Some j => i < j | None => True end ->
  unpack T new_Unpacker identity (S fuel)
    (0xa2 :: encode (VString k1) ++ encode v1
          ++ encode (VString k2) ++ encode v2 ++ rest)
  = (Return (VObject [(k2, normalize v2); (k1, normalize v1)]), rest).
Proof.
  intros Hk1 Hk2 H1 H2 Hd1 Hd2 Hproto Hi Hlater.
  apply String.eqb_neq in Hproto.
  assert (Hset : obj_set (mkObject [(k1, normalize v1)] false) k2
                   (normalize v2)
                 = Some (mkObject [(k2, normalize v2); (k1, normalize v1)]
                           false)).
  { unfold obj_set, add_own.
    cbn [own null_prototype has_own existsb fst orb].
    destruct (String.eqb_spec k1 k2) as [ E | _ ].
    { subst k2. rewrite Hi in Hlater. lia. }
    destruct (String.eqb_spec k2 "__proto__") as [ E | _ ].
    { subst k2. discriminate Hi. }
    cbn [andb]. rewrite Hi. cbn [insert_index].
    destruct (array_index k1) as [ j | ]; [ | reflexivity ].
    destruct (Z.ltb_spec j i); [ lia | reflexivity ]. }
  change (0xa2 :: ?buf)
    with (size_header TINY_MAP MAP_8 MAP_16 MAP_32 2 ++ buf).
  rewrite unpack_map_header by lia.
  unfold _unpackMapWithSize. change (Z.to_nat 2) with 2%nat.
  unfold bind at 1.
  rewrite (unpackMapLoop_step T _ 1 new_object _ _ _ _ _ _ _
             (unpack_encode T (VString k1) Hk1 fuel ltac:(simpl; lia) _)
             (unpack_encode T v1 H1 fuel Hd1 _)
             eq_refl (obj_set_first k1 (normalize v1) Hproto)).
  rewrite (unpackMapLoop_step T _ 0 _ _ _ _ _ _ _ _
             (unpack_encode T (VString k2) Hk2 fuel ltac:(simpl; lia) _)
             (unpack_encode T v2 H2 fuel Hd2 _)
             eq_refl Hset).
  reflexivity.
Qed.

Lemma index_keys_listed_first_witness :
  unpack ToString_unused new_Unpacker identity 2
    (0xa2 :: encode (VString "b") ++ encode (VBool true)
          ++ encode (VString "10") ++ encode (VBool false) ++ [])
  = (Return (VObject [("10"%string, VBool false); ("b"%string, VBool true)]),
     [])
  /\ unpack ToString_unused new_Unpacker identity 2
       (0xa2 :: encode (VString "10") ++ encode (VBool true)
             ++ encode (VString "9") ++ encode (VBool false) ++ [])
     = (Return (VObject [("9"%string, VBool false); ("10"%string, VBool true)]),
        []).
Proof.
  split.
  - apply (index_keys_listed_first ToString_unused "b" "10" (VBool true)
             (VBool false) 10 1 []);
      first [ reflexivity | simpl; lia | intros E; discriminate E | exact I ].
  - apply (index_keys_listed_first ToString_unused "10" "9" (VBool true)
             (VBool false) 9 1 []);
      first [ reflexivity | simpl; lia | intros E; discriminate E ].
Defined.

(** ** Big integers *)

(** X16. A host big integer in the 64-bit signed range is packed as the I64
    of the same value, and an Unpacker with [useBigInt] gives the same big
    integer back. *)
Theorem bigint_roundtrip (T : value -> string) (h : hook) (lossy : bool)
  (z : Z) (fuel : nat) (ch rest : list Z) :
  - 2 ^ 63 <= z < 2 ^ 63 ->
  pack (S fuel) (VBigInt z) identity (new_Packer ch)
  = (Return tt, new_Packer (ch ++ bytes_of (packInteger (int z))))
  /\ unpack T (mkUnpacker lossy true) h (S fuel)
       (bytes_of (packInteger (int z)) ++ rest)
     = (Return (VBigInt z), rest).
Proof.
  intros Hz. split.
  - unfold pack, bind. cbn [packable identity]. unfold ret.
    now rewrite (packInteger_writes (int z) (new_Packer ch)).
  - rewrite unpack_packInteger by apply Integer_wf_int.
    unfold integer_policy, toBigInt. cbn [_useBigInt].
    now rewrite toZ_int.
Qed.

Lemma bigint_roundtrip_witness :
  unpack ToString_unused (mkUnpacker false true) identity 1
    (bytes_of (packInteger (int (- 2 ^ 63))) ++ [])
  = (Return (VBigInt (- 2 ^ 63)), []).
Proof.
  apply (bigint_roundtrip ToString_unused identity false (- 2 ^ 63) 0 [] []).
  lia.
Defined.
